(** * benchmark_hybrid_parallelism.py: a shallow embedding

    The benchmark compares four ways of hashing a sampled corpus of files:
    per-item calls from a Python thread pool (Rust and C primitives), one
    batch call after a sequential read, and one batch call after a parallel
    read.  The embedding keeps the shape of the source:

    - the imported modules, the directory tree and the clock are an [Env];
    - the observable state is a [World]: how often the clock was read, the
      trace of file reads and hashing calls, and what was printed;
    - code run by pool workers is a [Task] (a finite tree of atomic actions);
      a [ThreadPoolExecutor] interleaves tasks under an arbitrary schedule;
    - code run by the main thread lives in the monad [M] (state + exception).

    Durations are Python floats in the source; they are idealised here as
    exact rationals, and the [:.3f] style rounding of the report is dropped:
    a printed line carries the exact value. *)

From Stdlib Require Import QArith.
From stdpp Require Import base list strings sorting.

Set Default Proof Using "Type".

(** ** Data *)

Definition Path := string.
Definition bytes := list Byte.byte.

(** Exceptions the program can raise. [SystemExit] is [sys.exit(code)]. *)
Inductive Exn :=
| ZeroDivisionError
| ValueError
| SystemExit (code : Z).

(** What a hashing or reading call leaves in the trace. *)
Inductive Event :=
| EvRead (p : Path)                  (* open(path,'rb').read() *)
| EvXxh64 (data : bytes)             (* xxh64(data, 0) *)
| EvDigest (data : bytes)            (* xxhash.xxh64_digest(data) *)
| EvBatch (data_list : list bytes).  (* batch_xxh64(data_list) *)

(** One [print] call: a literal text, or a label with the number formatted
    into it, or a row of the summary table. *)
Inductive Line :=
| Text (s : string)
| Value (label : string) (v : Q)
| Count (label : string) (n : nat)
| Row (method : string) (time throughput : Q) (ratio : option Q).

(** The environment of one process: the outcome of the two guarded imports,
    the imported functions, the machine, the directory tree and the clock.
    [batch_xxh64 = None] is the Python value [None] bound to that name.
    [st_size p = None] means [stat] raised [OSError]; [file_content p = None]
    means [open] or [read] raised.  [clock n] is what the n-th call of
    [time.perf_counter()] returns. *)
Record Env := {
  HAS_XXHASH : bool;
  HAS_RUST : bool;
  xxh64 : bytes -> Z -> Z;
  batch_xxh64 : option (list bytes -> list Z);
  xxh64_digest : bytes -> bytes;
  rayon_threads : nat -> option nat;
  cpu_count : nat;
  path_exists : Path -> bool;
  os_walk : Path -> list (Path * list string);
  st_size : Path -> option Z;
  file_content : Path -> option bytes;
  clock : nat -> Q;
}.

Record World := {
  ticks : nat;
  trace : list Event;
  stdout : list Line;
}.

Definition world0 : World := {| ticks := 0; trace := []; stdout := [] |}.

Definition emit (e : Event) (w : World) : World :=
  {| ticks := ticks w; trace := trace w ++ [e]; stdout := stdout w |}.

Definition tick (w : World) : World :=
  {| ticks := S (ticks w); trace := trace w; stdout := stdout w |}.

Definition put_line (l : Line) (w : World) : World :=
  {| ticks := ticks w; trace := trace w; stdout := stdout w ++ [l] |}.

(** ** Atomic actions and tasks *)

Inductive Action : Type -> Type :=
| OpenRead (p : Path) : Action (option bytes)
| PerfCounter : Action Q
| Xxh64 (data : bytes) (seed : Z) : Action Z
| Xxh64Digest (data : bytes) : Action bytes.

Inductive Task (R : Type) : Type :=
| Ret (r : R)
| Do {A : Type} (a : Action A) (k : A -> Task R).
Arguments Ret {R} r.
Arguments Do {R A} a k.

Fixpoint task_bind {R S : Type} (t : Task R) (f : R -> Task S) : Task S :=
  match t with
  | Ret r => f r
  | Do a k => Do a (fun x => task_bind (k x) f)
  end.

Declare Scope task_scope.
Delimit Scope task_scope with task.
Notation "'do' x <- t ; k" := (task_bind t (fun x => k))
  (at level 10, x name, t at level 100, k at level 200) : task_scope.
Notation "'do' ' p <- t ; k" := (task_bind t (fun x => let 'p := x in k))
  (at level 10, p pattern, t at level 100, k at level 200) : task_scope.
Notation "t ;; k" := (task_bind t (fun _ => k))
  (at level 100, k at level 200, right associativity) : task_scope.

Definition perform {A} (a : Action A) : Task A := Do a Ret.

(** ** The main thread: state and exceptions *)

Definition M (A : Type) : Type := World -> (Exn + A) * World.

Definition ret {A} (x : A) : M A := fun w => (inr x, w).

Definition bind {A B} (m : M A) (f : A -> M B) : M B :=
  fun w => match m w with
           | (inr x, w') => f x w'
           | (inl e, w') => (inl e, w')
           end.

Definition raise {A} (e : Exn) : M A := fun w => (inl e, w).

Declare Scope main_scope.
Delimit Scope main_scope with main.
Notation "'do' x <- m ; k" := (bind m (fun x => k))
  (at level 10, x name, m at level 100, k at level 200) : main_scope.
Notation "'do' ' p <- m ; k" := (bind m (fun x => let 'p := x in k))
  (at level 10, p pattern, m at level 100, k at level 200) : main_scope.
Notation "m ;; k" := (bind m (fun _ => k))
  (at level 100, k at level 200, right associativity) : main_scope.

Definition print (l : Line) : M unit := fun w => (inr tt, put_line l w).

(** Python's true division: [a / b] raises when [b] is zero. *)
Definition py_div (a b : Q) : M Q :=
  if Qeq_bool b 0 then raise ZeroDivisionError else ret (a / b)%Q.

(** The process status the interpreter reports for a finished [main]: zero
    when [main] returns, the code of a [sys.exit], one for any other
    exception that reaches the top level. *)
Definition exit_code {A} (r : Exn + A) : Z :=
  match r with
  | inr _ => 0
  | inl (SystemExit code) => code
  | inl _ => 1
  end.

(** Truth value of a bytes object or a list: non-empty. *)
Definition truthy {A} (l : list A) : bool :=
  match l with [] => false | _ :: _ => true end.

Definition sumQ (l : list Q) : Q := foldl Qplus 0%Q l.

Definition sumZ (l : list Z) : Z := foldl Z.add 0%Z l.

(** [min(a, b, c, d)]: the first of the smallest arguments. *)
Definition py_min (x : Q) (rest : list Q) : Q :=
  foldl (fun m y => if Qle_bool m y then m else y) x rest.

Fixpoint string_times (s : string) (n : nat) : string :=
  match n with
  | O => ""
  | S n' => s +:+ string_times s n'
  end.

(** ** Sorting and slicing *)

(** [files.sort(key=lambda x: x[1])]: Python's sort is stable, so the result
    is the one of any stable sort on the size; insertion from the right is
    such a sort. *)
Fixpoint insert_by_size (x : Path * Z) (l : list (Path * Z)) : list (Path * Z) :=
  match l with
  | [] => [x]
  | y :: l' => if (x.2 <=? y.2)%Z then x :: y :: l' else y :: insert_by_size x l'
  end.

Fixpoint sort_by_size (l : list (Path * Z)) : list (Path * Z) :=
  match l with
  | [] => []
  | x :: l' => insert_by_size x (sort_by_size l')
  end.

(** [l[:stop]]: a negative [stop] counts from the end. *)
Definition slice_to {A} (l : list A) (stop : Z) : list A :=
  if (0 <=? stop)%Z then take (Z.to_nat stop) l
  else take (length l - Z.to_nat (- stop)) l.

Definition path_join (root : Path) (filename : string) : Path :=
  root +:+ "/" +:+ filename.

(** ** ThreadPoolExecutor: the pool state *)

Record Pool (R : Type) := {
  queue : list (nat * Task R);
  workers : list (option (nat * Task R));
  futures : list (option R);
}.
Arguments queue {R} _.
Arguments workers {R} _.
Arguments futures {R} _.

Definition running {R} (p : Pool R) : list (nat * Task R) :=
  omap id (workers p).

Definition submit_all {R} (tasks : list (Task R)) (max_workers : nat) : Pool R :=
  {| queue := imap (fun j t => (j, t)) tasks;
     workers := replicate max_workers None;
     futures := replicate (length tasks) None |}.

(** The schedules of the three pools that [main] creates. *)
Record Schedules := {
  sched_python : list nat;
  sched_hybrid : list nat;
  sched_c : list nat;
}.

Section Program.
Variable env : Env.

Definition exec {A} (a : Action A) (w : World) : A * World :=
  match a in Action T return T * World with
  | OpenRead p => (file_content env p, emit (EvRead p) w)
  | PerfCounter => (clock env (ticks w), tick w)
  | Xxh64 data seed => (xxh64 env data seed, emit (EvXxh64 data) w)
  | Xxh64Digest data => (xxh64_digest env data, emit (EvDigest data) w)
  end.

(** Running a task alone, to its end. *)
Fixpoint run_task {R} (t : Task R) (w : World) : R * World :=
  match t with
  | Ret r => (r, w)
  | Do a k => let '(x, w') := exec a w in run_task (k x) w'
  end.

(** A call made by the main thread itself runs to its end. *)
Definition call {R} (t : Task R) : M R :=
  fun w => let '(r, w') := run_task t w in (inr r, w').

Definition perf_counter : M Q := call (perform PerfCounter).

(** ** ThreadPoolExecutor

    [executor.map(fn, items)] submits one job per item, in order; each job
    owns the future at its index.  A worker that is idle takes the oldest
    queued job; a worker that runs a job performs its next atomic action, or
    resolves the job's future when the job has returned.  Which worker moves
    next is not decided by the program: it is the schedule, a list of worker
    indices.  Leaving the [with] block joins the pool: whatever the schedule
    left undone is completed. *)

Definition pool_step {R} (st : Pool R * World) (i : nat) : Pool R * World :=
  let '(p, w) := st in
  match workers p !! i with
  | None => st
  | Some None =>
      match queue p with
      | [] => st
      | job :: rest =>
          ({| queue := rest;
              workers := <[i := Some job]> (workers p);
              futures := futures p |}, w)
      end
  | Some (Some (j, Ret r)) =>
      ({| queue := queue p;
          workers := <[i := None]> (workers p);
          futures := <[j := Some r]> (futures p) |}, w)
  | Some (Some (j, Do a k)) =>
      let '(x, w') := exec a w in
      ({| queue := queue p;
          workers := <[i := Some (j, k x)]> (workers p);
          futures := futures p |}, w')
  end.

Definition finish {R} (st : list (option R) * World) (job : nat * Task R)
  : list (option R) * World :=
  let '(fs, w) := st in
  let '(r, w') := run_task job.2 w in
  (<[job.1 := Some r]> fs, w').

Definition pool_join {R} (p : Pool R) (w : World) : list (option R) * World :=
  foldl finish (futures p, w) (running p ++ queue p).

(** [list(executor.map(...))] inside [with ThreadPoolExecutor(max_workers)].
    A pool of no workers is refused with [ValueError].  The results are read
    off the futures in submission order; after the join every future is
    resolved ([executor_map_spec] below), so nothing is dropped. *)
Definition executor_map {R} (sched : list nat) (max_workers : nat)
    (tasks : list (Task R)) : M (list R) :=
  fun w =>
    if (max_workers =? 0)%nat then (inl ValueError, w)
    else
      let '(p, w1) := foldl pool_step (submit_all tasks max_workers, w) sched in
      let '(fs, w2) := pool_join p w1 in
      (inr (omap id fs), w2).

(** ** get_files (lines 35-47) *)

(** The loop of lines 38-45: every file name the walk yields is stat'ed; a
    failing [stat] skips the file. *)
Definition walk_files (directory : Path) : list (Path * Z) :=
  flat_map (fun '(root, filenames) =>
    omap (fun filename =>
            let filepath := path_join root filename in
            match st_size env filepath with
            | Some size => Some (filepath, size)
            | None => None
            end) filenames)
    (os_walk env directory).

Definition get_files (directory : Path) (max_files : Z) : list (Path * Z) :=
  let files := walk_files directory in
  let files := sort_by_size files in
  slice_to files max_files.

(** ** read_file (lines 50-56) *)

Definition read_file (path : Path) : Task bytes :=
  (do r <- perform (OpenRead path);
   Ret (match r with Some data => data | None => [] end))%task.

(** ** benchmark_python_threading_rust (lines 59-77) *)

Definition rust_worker (filepath : Path) : Task Q :=
  (do data <- read_file filepath;
   if negb (truthy data) then Ret 0%Q
   else
     do start <- perform PerfCounter;
     do _ <- perform (Xxh64 data 0);
     do stop <- perform PerfCounter;
     Ret ((stop - start) * 1e6)%Q)%task.

Definition benchmark_python_threading_rust (sched : list nat)
    (files : list (Path * Z)) (num_threads : nat) : M (Q * list Q) :=
  (if negb (HAS_RUST env) then ret (0%Q, [])
   else
     do start <- perf_counter;
     do latencies <- executor_map sched num_threads
                       ((fun '(f, _) => rust_worker f) <$> files);
     do stop <- perf_counter;
     let total_time := (stop - start)%Q in
     ret (total_time, latencies))%main.

(** ** benchmark_rust_parallel_batch (lines 80-105) *)

Fixpoint read_loop (files : list (Path * Z)) (data_list : list bytes)
  : M (list bytes) :=
  match files with
  | [] => ret data_list
  | (filepath, size) :: rest =>
      (do data <- call (read_file filepath);
       read_loop rest (if truthy data then data_list ++ [data] else data_list))%main
  end.

Definition call_batch (batch : list bytes -> list Z) (data_list : list bytes)
  : M (list Z) :=
  fun w => (inr (batch data_list), emit (EvBatch data_list) w).

(** Line 100 and line 131: the uniform latency list. *)
Definition uniform_latencies (process_time : Q) (results : list Z) : M (list Q) :=
  (if truthy results then
     do x <- py_div (process_time * 1e6)%Q (inject_Z (Z.of_nat (length results)));
     ret (replicate (length results) x)
   else ret [])%main.

Definition benchmark_rust_parallel_batch (files : list (Path * Z))
  : M (Q * list Q) :=
  match (if HAS_RUST env then batch_xxh64 env else None) with
  | None => ret (0%Q, [])
  | Some batch =>
      (do read_start <- perf_counter;
       do data_list <- read_loop files [];
       do t <- perf_counter;
       let read_time := (t - read_start)%Q in
       do process_start <- perf_counter;
       do results <- call_batch batch data_list;
       do t <- perf_counter;
       let process_time := (t - process_start)%Q in
       let total_time := (read_time + process_time)%Q in
       do latencies <- uniform_latencies process_time results;
       print (Value "I/O time" read_time) ;;
       print (Value "Processing time" process_time) ;;
       ret (process_time, latencies))%main
  end.

(** ** benchmark_rust_parallel_batch_with_reading (lines 108-136) *)

Definition read_worker (filepath : Path) : Task bytes := read_file filepath.

Definition benchmark_rust_parallel_batch_with_reading (sched : list nat)
    (files : list (Path * Z)) (num_threads : nat) : M (Q * list Q) :=
  match (if HAS_RUST env then batch_xxh64 env else None) with
  | None => ret (0%Q, [])
  | Some batch =>
      (do read_start <- perf_counter;
       do data_list <- executor_map sched num_threads
                         ((fun '(f, _) => read_worker f) <$> files);
       let data_list := filter (fun d => truthy d = true) data_list in
       do t <- perf_counter;
       let read_time := (t - read_start)%Q in
       do process_start <- perf_counter;
       do results <- call_batch batch data_list;
       do t <- perf_counter;
       let process_time := (t - process_start)%Q in
       let total_time := (read_time + process_time)%Q in
       do latencies <- uniform_latencies process_time results;
       print (Value "I/O time" read_time) ;;
       print (Value "Processing time" process_time) ;;
       ret (process_time, latencies))%main
  end.

(** ** benchmark_c_threading (lines 139-157) *)

Definition c_worker (filepath : Path) : Task Q :=
  (do data <- read_file filepath;
   if negb (truthy data) then Ret 0%Q
   else
     do start <- perform PerfCounter;
     do _ <- perform (Xxh64Digest data);
     do stop <- perform PerfCounter;
     Ret ((stop - start) * 1e6)%Q)%task.

Definition benchmark_c_threading (sched : list nat)
    (files : list (Path * Z)) (num_threads : nat) : M (Q * list Q) :=
  (if negb (HAS_XXHASH env) then ret (0%Q, [])
   else
     do start <- perf_counter;
     do latencies <- executor_map sched num_threads
                       ((fun '(f, _) => c_worker f) <$> files);
     do stop <- perf_counter;
     let total_time := (stop - start)%Q in
     ret (total_time, latencies))%main.

(** ** main (lines 160-252) *)

(** [if latencies: print(f"   Avg latency: {sum(latencies)/len(latencies)}")] *)
Definition print_avg_latency (latencies : list Q) : M unit :=
  (if truthy latencies then
     do avg <- py_div (sumQ latencies) (inject_Z (Z.of_nat (length latencies)));
     print (Value "Avg latency" avg)
   else ret tt)%main.

(** [total_size / time / 1e6] *)
Definition throughput (total_size : Z) (time : Q) : M Q :=
  (do x <- py_div (inject_Z total_size) time;
   py_div x 1e6)%main.

Definition main (scheds : Schedules) (argv : list string) : M unit :=
  (if (length argv <? 2)%nat then
     print (Text "Usage: python benchmark_hybrid_parallelism.py <directory>") ;;
     raise (SystemExit 1)
   else
   let directory : Path := nth 1 argv "" in
   if negb (path_exists env directory) then
     print (Text ("Error: Directory does not exist: " +:+ directory)) ;;
     raise (SystemExit 1)
   else
   print (Text ("Scanning directory: " +:+ directory)) ;;
   let files := get_files directory 1000 in
   print (Count "Found files" (length files)) ;;
   let total_size := sumZ (snd <$> files) in
   do mb <- py_div (inject_Z total_size) 1e6;
   print (Value "Total size" mb) ;;
   do per_file <- py_div (inject_Z total_size) (inject_Z (Z.of_nat (length files)));
   do kb <- py_div per_file 1024;
   print (Value "Average file size" kb) ;;
   print (Count "CPU cores" (cpu_count env)) ;;
   let num_threads := cpu_count env in
   print (Count "Thread count (Python & Rust)" num_threads) ;;
   (if HAS_RUST env then
      match rayon_threads env num_threads with
      | Some n => print (Count "Rayon threads configured" n)
      | None => ret tt
      end
    else ret tt) ;;
   print (Text "") ;;
   if negb (HAS_RUST env) || negb (HAS_XXHASH env) then
     print (Text "Error: Both libraries required") ;;
     raise (SystemExit 1)
   else
   print (Text (string_times "=" 100)) ;;
   print (Text "Hybrid Parallelism Comparison") ;;
   print (Text (string_times "=" 100)) ;;
   (* Benchmark 1 *)
   print (Text "1. Python Threading + Rust (individual calls, reads in parallel)") ;;
   do '(python_time, python_latencies) <-
     benchmark_python_threading_rust (sched_python scheds) files (cpu_count env);
   print (Value "Total time" python_time) ;;
   print_avg_latency python_latencies ;;
   do thr <- throughput total_size python_time;
   print (Value "Throughput" thr) ;;
   (* Benchmark 2 *)
   print (Text "2. Rust Rayon Parallelism (batch processing, reads sequentially)") ;;
   do '(rust_time, rust_latencies) <- benchmark_rust_parallel_batch files;
   print (Value "Total time" rust_time) ;;
   print_avg_latency rust_latencies ;;
   do thr <- throughput total_size rust_time;
   print (Value "Throughput" thr) ;;
   (* Benchmark 3 *)
   print (Text "3. Hybrid: Python threads (I/O) + Rust Rayon (processing)") ;;
   do '(hybrid_time, hybrid_latencies) <-
     benchmark_rust_parallel_batch_with_reading (sched_hybrid scheds) files
       (cpu_count env);
   print (Value "Processing time" hybrid_time) ;;
   print_avg_latency hybrid_latencies ;;
   do thr <- throughput total_size hybrid_time;
   print (Value "Throughput" thr) ;;
   (* Benchmark 4 *)
   print (Text "4. Python Threading + C (individual calls)") ;;
   do '(c_time, c_latencies) <-
     benchmark_c_threading (sched_c scheds) files (cpu_count env);
   print (Value "Total time" c_time) ;;
   print_avg_latency c_latencies ;;
   do thr <- throughput total_size c_time;
   print (Value "Throughput" thr) ;;
   (* Summary *)
   print (Text (string_times "=" 100)) ;;
   print (Text "Performance Summary") ;;
   print (Text (string_times "=" 100)) ;;
   print (Text "Method / Time (s) / Throughput (MB/s) / vs Python+Rust") ;;
   print (Text (string_times "-" 100)) ;;
   do thr <- throughput total_size python_time;
   print (Row "Python Threads + Rust (individual)" python_time thr None) ;;
   do thr <- throughput total_size rust_time;
   do ratio <- py_div python_time rust_time;
   print (Row "Rust Rayon (batch, seq I/O)" rust_time thr (Some ratio)) ;;
   do thr <- throughput total_size hybrid_time;
   do ratio <- py_div python_time hybrid_time;
   print (Row "Hybrid: Py Threads + Rust Rayon" hybrid_time thr (Some ratio)) ;;
   do thr <- throughput total_size c_time;
   do ratio <- py_div python_time c_time;
   print (Row "Python Threads + C (individual)" c_time thr (Some ratio)) ;;
   (* Analysis *)
   print (Text "Analysis:") ;;
   let fastest_time := py_min python_time [rust_time; hybrid_time; c_time] in
   if Qeq_bool hybrid_time fastest_time then
     print (Value "Hybrid approach (Py I/O + Rust Rayon) is best at" fastest_time)
   else if Qeq_bool python_time fastest_time then
     print (Value "Python threading + Rust is best at" fastest_time)
   else if Qeq_bool c_time fastest_time then
     print (Value "Python threading + C is best at" fastest_time)
   else
     print (Value "Rust Rayon batch is best at" fastest_time))%main.

End Program.


(** ** Vocabulary of the properties *)

(** Ascending by file size. *)
Definition size_le (a b : Path * Z) : Prop := (a.2 <= b.2)%Z.

(** ** Concrete environments *)

Definition one_byte : bytes := [Byte.x01].

(** A directory [d] with three readable files of sizes 10, 1000 and 100
    (the one of size 1000 reads as empty) and a fourth one that cannot be
    stat'ed.  The clock advances by one second per reading. *)
Definition env_demo : Env := {|
  HAS_XXHASH := true;
  HAS_RUST := true;
  xxh64 := fun _ _ => 7%Z;
  batch_xxh64 := Some (fun data_list => map (fun _ => 7%Z) data_list);
  xxh64_digest := fun data => data;
  rayon_threads := fun n => Some n;
  cpu_count := 2;
  path_exists := fun p => String.eqb p "d";
  os_walk := fun p => if String.eqb p "d" then [("d", ["a"; "b"; "c"; "z"])] else [];
  st_size := fun p =>
    if String.eqb p "d/a" then Some 10%Z
    else if String.eqb p "d/b" then Some 1000%Z
    else if String.eqb p "d/c" then Some 100%Z
    else None;
  file_content := fun p =>
    if String.eqb p "d/a" then Some one_byte
    else if String.eqb p "d/b" then Some []
    else if String.eqb p "d/c" then Some one_byte
    else None;
  clock := fun n => inject_Z (Z.of_nat n + 1);
|}.

(** The same directory listing seen by another process: other clock, other
    file contents, no Rust module. *)
Definition env_demo_later : Env := {|
  HAS_XXHASH := true;
  HAS_RUST := false;
  xxh64 := fun _ _ => 0%Z;
  batch_xxh64 := None;
  xxh64_digest := fun data => data;
  rayon_threads := fun _ => None;
  cpu_count := 8;
  path_exists := fun p => String.eqb p "d";
  os_walk := os_walk env_demo;
  st_size := st_size env_demo;
  file_content := fun _ => None;
  clock := fun n => inject_Z (2 * Z.of_nat n + 100);
|}.

(** ** A program logic for tasks and pools *)

(** [task_post env J P t]: every atomic action of [t] keeps the world
    invariant [J], and whatever [t] returns satisfies [P]; the results of
    the actions are those the environment gives in worlds satisfying [J]. *)
Fixpoint task_post (env : Env) {R} (J : World -> Prop) (P : R -> Prop)
    (t : Task R) : Prop :=
  match t with
  | Ret r => P r
  | Do a k => ∀ w, J w -> J (exec env a w).2 ∧ task_post env J P (k (exec env a w).1)
  end.

(** The jobs of a pool that have not resolved their future yet. *)
Definition pending {R} (p : Pool R) : list (nat * Task R) :=
  running p ++ queue p.

(** What every reachable pool state satisfies, for [N] submitted jobs whose
    j-th result is to satisfy [post j]. *)
Record pool_inv (env : Env) {R} (J : World -> Prop) (post : nat -> R -> Prop)
    (N : nat) (p : Pool R) : Prop := {
  inv_length : length (futures p) = N;
  inv_jobs : ∀ j t, (j, t) ∈ pending p -> task_post env J (post j) t;
  inv_done : ∀ j r, futures p !! j = Some (Some r) -> post j r;
  inv_todo : ∀ j, futures p !! j = Some None -> ∃ t, (j, t) ∈ pending p;
}.

(** ** Vocabulary for traces and results *)

(** What [read_file] returns for a path: the content, or [b''] when the
    file cannot be read. *)
Definition payload (env : Env) (p : Path) : bytes :=
  match file_content env p with Some data => data | None => [] end.

(** The payloads a batch strategy hands to [batch_xxh64]: those of the
    corpus, in corpus order, without the empty ones. *)
Definition corpus_payloads (env : Env) (files : list (Path * Z)) : list bytes :=
  filter (fun d => truthy d = true) ((fun f => payload env f.1) <$> files).

Definition is_read (e : Event) : bool :=
  match e with EvRead _ => true | _ => false end.

(** A run whose read phase is over before its compute phase begins: its
    events are file reads, and from the first hashing call on only hashing
    calls. *)
Fixpoint read_phase_first (events : list Event) : bool :=
  match events with
  | [] => true
  | e :: rest =>
      if is_read e then read_phase_first rest
      else forallb (fun e' => negb (is_read e')) rest
  end.

(** No hashing call on an empty payload. *)
Definition hash_nonempty (e : Event) : Prop :=
  match e with
  | EvXxh64 data | EvDigest data => data ≠ []
  | _ => True
  end.

(** The latency list of lines 100 and 131 as a value. *)
Definition uniform (process_time : Q) (results : list Z) : list Q :=
  if truthy results then
    replicate (length results)
      (process_time * 1e6 / inject_Z (Z.of_nat (length results)))%Q
  else [].

(** World invariants of the two kinds of pool. *)
Definition only_reads_since (k : nat) (out : list Line) (tr0 : list Event)
    (w : World) : Prop :=
  ticks w = k ∧ stdout w = out
  ∧ ∃ reads, trace w = tr0 ++ reads ∧ Forall (fun e => is_read e = true) reads.

Definition hashes_nonempty (out : list Line) (w : World) : Prop :=
  stdout w = out ∧ Forall hash_nonempty (trace w).

(** What the j-th latency of a per-item strategy is: zero for an item whose
    payload is empty, a clock difference in microseconds otherwise. *)
Definition latency_post (env : Env) (files : list (Path * Z)) (j : nat) (r : Q)
  : Prop :=
  ∀ p sz, files !! j = Some (p, sz) ->
    (payload env p = [] -> r = 0%Q)
    ∧ (payload env p ≠ [] ->
       ∃ a b : nat, r = ((clock env b - clock env a) * 1e6)%Q).

(** [env_demo] with a batch primitive that returns no digest at all. *)
Definition env_no_digests : Env := {|
  HAS_XXHASH := true;
  HAS_RUST := true;
  xxh64 := xxh64 env_demo;
  batch_xxh64 := Some (fun _ => []);
  xxh64_digest := xxh64_digest env_demo;
  rayon_threads := rayon_threads env_demo;
  cpu_count := 2;
  path_exists := path_exists env_demo;
  os_walk := os_walk env_demo;
  st_size := st_size env_demo;
  file_content := file_content env_demo;
  clock := clock env_demo;
|}.

(** The corpus of [env_demo]: d/a (10 bytes), d/c (100), d/b (1000). *)
Definition demo_files : list (Path * Z) := get_files env_demo "d" 1000.

(** An existing but empty directory [e]. *)
Definition env_empty_dir : Env := {|
  HAS_XXHASH := true;
  HAS_RUST := true;
  xxh64 := xxh64 env_demo;
  batch_xxh64 := batch_xxh64 env_demo;
  xxh64_digest := xxh64_digest env_demo;
  rayon_threads := rayon_threads env_demo;
  cpu_count := 2;
  path_exists := fun p => String.eqb p "e";
  os_walk := fun p => if String.eqb p "e" then [("e", [])] else [];
  st_size := fun _ => None;
  file_content := fun _ => None;
  clock := clock env_demo;
|}.

Definition demo_schedules : Schedules :=
  {| sched_python := [0; 1; 0; 1; 1; 1];
     sched_hybrid := [1; 1; 0; 0];
     sched_c := replicate 18 0 |}.

(** [env_demo] with a clock too coarse to see any time pass. *)
Definition env_coarse_clock : Env := {|
  HAS_XXHASH := true;
  HAS_RUST := true;
  xxh64 := xxh64 env_demo;
  batch_xxh64 := batch_xxh64 env_demo;
  xxh64_digest := xxh64_digest env_demo;
  rayon_threads := rayon_threads env_demo;
  cpu_count := 2;
  path_exists := path_exists env_demo;
  os_walk := os_walk env_demo;
  st_size := st_size env_demo;
  file_content := file_content env_demo;
  clock := fun _ => 0%Q;
|}.

(** ** Vocabulary for the order of events in a pool run *)

(** The events an atomic action leaves in the trace. *)
Definition action_events {A} (a : Action A) : list Event :=
  match a with
  | OpenRead p => [EvRead p]
  | PerfCounter => []
  | Xxh64 data _ => [EvXxh64 data]
  | Xxh64Digest data => [EvDigest data]
  end.

(** [task_emits env t events]: whatever the actions of [t] return, [t]
    leaves exactly [events] in the trace, in this order. *)
Fixpoint task_emits (env : Env) {R} (t : Task R) (events : list Event) : Prop :=
  match t with
  | Ret _ => events = []
  | Do a k =>
      ∃ rest, events = action_events a ++ rest
              ∧ ∀ w, task_emits env (k (exec env a w).1) rest
  end.

(** [interleaving ls tr]: the sequence [tr] is a merge of the sequences
    [ls]; each of them occurs in [tr] in its own order, and nothing else
    occurs in [tr]. *)
Inductive interleaving {A : Type} : list (list A) -> list A -> Prop :=
| interleaving_nil (ls : list (list A)) :
    Forall (fun l => l = []) ls -> interleaving ls []
| interleaving_cons (ls : list (list A)) (i : nat) (x : A) (l tr : list A) :
    ls !! i = Some (x :: l) ->
    interleaving (<[i := l]> ls) tr ->
    interleaving ls (x :: tr).

(** The ghost state of a pool run: [events] is what the j-th submitted task
    emits in all, [tr0] the trace before the run.  Every pending job has
    emitted a prefix of its events, every other job all of them, and the
    trace since [tr0] merges what has been emitted. *)
Definition pool_ghost (env : Env) {R} (events : list (list Event))
    (tr0 : list Event) (pend : list (nat * Task R)) (w : World) : Prop :=
  NoDup pend.*1
  ∧ ∃ (dones : list (list Event)) (evs : list Event),
      length dones = length events
      ∧ trace w = tr0 ++ evs
      ∧ interleaving dones evs
      ∧ (∀ j t, (j, t) ∈ pend ->
           ∃ d rem, dones !! j = Some d ∧ events !! j = Some (d ++ rem)
                    ∧ task_emits env t rem)
      ∧ (∀ j, j ∉ pend.*1 -> dones !! j = events !! j).

(** What a per-item worker does for one file: read it, and hash the payload
    unless it is empty. *)
Definition rust_item_events (env : Env) (f : Path * Z) : list Event :=
  EvRead f.1 :: (if truthy (payload env f.1) then [EvXxh64 (payload env f.1)] else []).

Definition c_item_events (env : Env) (f : Path * Z) : list Event :=
  EvRead f.1 :: (if truthy (payload env f.1) then [EvDigest (payload env f.1)] else []).

(** The payload a hashing call was made on. *)
Definition hashed_payload (e : Event) : option bytes :=
  match e with
  | EvXxh64 data | EvDigest data => Some data
  | _ => None
  end.

(** The payloads a hashing call hashes: one for a per-item call, the whole
    list for a batch call. *)
Definition payloads_hashed (e : Event) : list bytes :=
  match e with
  | EvRead _ => []
  | EvXxh64 data | EvDigest data => [data]
  | EvBatch data_list => data_list
  end.

Definition corpus_reads (files : list (Path * Z)) : list Event :=
  (fun f => EvRead f.1) <$> files.

(** What a strategy run from world [w] to world [w'] did to the corpus: it
    read every file once and hashed every non-empty payload once. *)
Definition run_summary (env : Env) (files : list (Path * Z)) (w w' : World)
  : Prop :=
  ∃ evs, trace w' = trace w ++ evs
         ∧ filter (fun e => is_read e = true) evs ≡ₚ corpus_reads files
         ∧ mjoin (payloads_hashed <$> evs) ≡ₚ corpus_payloads env files.

(** [task_since env P t k0]: if the clock has been read at least [k0] times
    when [t] goes on, and is never read fewer times afterwards, whatever
    [t] returns satisfies [P]. *)
Fixpoint task_since (env : Env) {R} (P : R -> Prop) (t : Task R) (k0 : nat)
  : Prop :=
  match t with
  | Ret r => P r
  | Do a k =>
      ∀ w, k0 <= ticks w ->
           task_since env P (k (exec env a w).1) (ticks (exec env a w).2)
  end.

(** A job of a pool that can go on in world [w]. *)
Definition job_since (env : Env) {R} (P : R -> Prop) (w : World)
    (job : nat * Task R) : Prop :=
  ∃ k0, k0 <= ticks w ∧ task_since env P job.2 k0.

Definition resolved_with {R} (P : R -> Prop) (o : option R) : Prop :=
  match o with Some r => P r | None => True end.

(** A clock that never goes back, as [time.perf_counter] is. *)
Definition monotone_clock (env : Env) : Prop :=
  ∀ a b : nat, a <= b -> (clock env a <= clock env b)%Q.

(** A result of a strategy whose time and latencies are not negative. *)
Definition nonnegative_result (r : (Exn + Q * list Q) * World) : Prop :=
  match r.1 with
  | inr (time, latencies) =>
      (0 <= time)%Q ∧ Forall (fun x => (0 <= x)%Q) latencies
  | inl _ => True
  end.
(** * Properties *)

(** ** Sorting by size *)

Lemma insert_by_size_perm x l : insert_by_size x l ≡ₚ x :: l.
Proof.
  induction l as [|y l IH]; simpl; [done|].
  destruct (x.2 <=? y.2)%Z; [done|].
  rewrite IH. apply Permutation_swap.
Qed.

Lemma sort_by_size_perm l : sort_by_size l ≡ₚ l.
Proof.
  induction l as [|x l IH]; simpl; [done|].
  rewrite insert_by_size_perm. by rewrite IH.
Qed.

Lemma insert_by_size_hd x l y :
  size_le y x -> HdRel size_le y l -> HdRel size_le y (insert_by_size x l).
Proof.
  intros Hyx Hl. destruct l as [|z l]; simpl.
  - by constructor.
  - destruct (x.2 <=? z.2)%Z; constructor; [done|].
    by inversion Hl.
Qed.

Lemma insert_by_size_sorted x l :
  Sorted size_le l -> Sorted size_le (insert_by_size x l).
Proof.
  induction 1 as [|y l Hs IH Hhd]; simpl.
  - by repeat constructor.
  - destruct (Z.leb_spec (x.2) (y.2)) as [Hle|Hgt].
    + constructor; [by constructor|]. by constructor.
    + constructor; [done|].
      apply insert_by_size_hd; [|done]. unfold size_le. lia.
Qed.

Lemma sort_by_size_sorted l : Sorted size_le (sort_by_size l).
Proof.
  induction l as [|x l IH]; simpl; [constructor|].
  by apply insert_by_size_sorted.
Qed.

Lemma size_le_trans : Transitive size_le.
Proof. intros a b c. unfold size_le. lia. Qed.

Lemma sort_by_size_strongly_sorted l : StronglySorted size_le (sort_by_size l).
Proof.
  apply Sorted_StronglySorted; [apply size_le_trans | apply sort_by_size_sorted].
Qed.

(** The sort keeps files of equal size in the order of the walk, as
    Python's stable sort does. *)
Lemma insert_by_size_stable (k : Z) x l :
  StronglySorted size_le l ->
  filter (λ y, y.2 = k) (insert_by_size x l) = filter (λ y, y.2 = k) (x :: l).
Proof.
  induction 1 as [|y l Hs IH Hall]; simpl; [done|].
  destruct (Z.leb_spec (x.2) (y.2)) as [Hle|Hgt]; [done|].
  rewrite !filter_cons. rewrite !filter_cons in IH.
  destruct (decide (y.2 = k)) as [Hy|Hy], (decide (x.2 = k)) as [Hx|Hx];
    try (rewrite IH; done); try lia.
Qed.

Lemma sort_by_size_stable (k : Z) l :
  filter (λ y, y.2 = k) (sort_by_size l) = filter (λ y, y.2 = k) l.
Proof.
  induction l as [|x l IH]; simpl; [done|].
  rewrite insert_by_size_stable by apply sort_by_size_strongly_sorted.
  rewrite !filter_cons. by rewrite IH.
Qed.

Lemma StronglySorted_take {A} (R : relation A) n (l : list A) :
  StronglySorted R l -> StronglySorted R (take n l).
Proof.
  intros Hs. rewrite <- (take_drop n l) in Hs.
  by apply StronglySorted_app_1_l in Hs.
Qed.

Lemma walk_files_ext env1 env2 directory :
  os_walk env1 directory = os_walk env2 directory ->
  (forall p, st_size env1 p = st_size env2 p) ->
  walk_files env1 directory = walk_files env2 directory.
Proof.
  intros Hwalk Hstat. unfold walk_files. rewrite Hwalk. clear Hwalk.
  induction (os_walk env2 directory) as [|[root filenames] rest IH]; simpl; [done|].
  rewrite IH. f_equal.
  induction filenames as [|f fs IHf]; [done|].
  cbn [omap list_omap]. rewrite Hstat, IHf. done.
Qed.

(** ** The corpus sampler *)

(** C5. For every directory and every bound [max_files] (a count, so not
    negative), the corpus [get_files] returns is sorted ascending by file
    size, has at most [max_files] entries, and is the first [max_files]
    entries of the size-sorted listing of all files that could be stat'ed.
    In particular a directory with exactly three files of sizes 10, 1000 and
    100 and [max_files = 10] yields the 10-, the 100-, then the 1000-byte
    file. *)
Theorem get_files_sorted_truncated (env : Env) (directory : Path) (max_files : Z) :
  (0 <= max_files)%Z ->
  let files := get_files env directory max_files in
  StronglySorted size_le files
  ∧ (Z.of_nat (length files) <= max_files)%Z
  ∧ files = take (Z.to_nat max_files) (sort_by_size (walk_files env directory))
  ∧ sort_by_size (walk_files env directory) ≡ₚ walk_files env directory
  ∧ (∀ a b c : Path,
       walk_files env directory = [(a, 10%Z); (b, 1000%Z); (c, 100%Z)] ->
       max_files = 10%Z ->
       files = [(a, 10%Z); (c, 100%Z); (b, 1000%Z)]).
Proof.
  intros Hbound files.
  assert (Hfiles : files = take (Z.to_nat max_files)
                             (sort_by_size (walk_files env directory))).
  { subst files. unfold get_files, slice_to.
    destruct (Z.leb_spec 0 max_files); [done | lia]. }
  split_and!.
  - rewrite Hfiles. apply StronglySorted_take, sort_by_size_strongly_sorted.
  - rewrite Hfiles, length_take. lia.
  - done.
  - apply sort_by_size_perm.
  - intros a b c Hwalk ->. rewrite Hfiles, Hwalk. reflexivity.
Qed.

Lemma get_files_sorted_truncated_witness :
  get_files env_demo "d" 10 = [("d/a", 10%Z); ("d/c", 100%Z); ("d/b", 1000%Z)].
Proof.
  assert (Hbound : (0 <= 10)%Z) by (intros H; discriminate H).
  destruct (get_files_sorted_truncated env_demo "d" 10 Hbound)
    as (_ & _ & _ & _ & Hexample).
  apply (Hexample "d/a" "d/b" "d/c"); reflexivity.
Defined.

(** X8. A negative [max_files] is not a bound: as a Python slice it drops
    entries from the end of the sorted listing. *)
Lemma get_files_negative_slice (env : Env) (directory : Path) (max_files : Z) :
  (max_files < 0)%Z ->
  get_files env directory max_files =
  take (length (walk_files env directory) - Z.to_nat (- max_files))
       (sort_by_size (walk_files env directory)).
Proof.
  intros Hneg. unfold get_files, slice_to.
  destruct (Z.leb_spec 0 max_files); [lia|].
  by rewrite (Permutation_length (sort_by_size_perm _)).
Qed.

(** C9. Sampling is deterministic: the sampled sequence is a function of the
    directory listing alone.  Two runs that see the same enumeration and the
    same sizes return the same ordered sequence, whatever else differs
    between them (clock, file contents, available modules). *)
Theorem get_files_deterministic (env1 env2 : Env) (directory : Path) (max_files : Z) :
  os_walk env1 directory = os_walk env2 directory ->
  (∀ p, st_size env1 p = st_size env2 p) ->
  get_files env1 directory max_files = get_files env2 directory max_files.
Proof.
  intros Hwalk Hstat. unfold get_files.
  by rewrite (walk_files_ext env1 env2 directory Hwalk Hstat).
Qed.

Lemma get_files_deterministic_witness :
  get_files env_demo "d" 1000 = get_files env_demo_later "d" 1000.
Proof.
  apply (get_files_deterministic env_demo env_demo_later "d" 1000).
  - reflexivity.
  - intros p. reflexivity.
Defined.

(** ** Tasks and the thread pool *)

Section PoolLogic.
Variable env : Env.
Context {R : Type}.
Variable J : World -> Prop.

Lemma run_task_post (P : R -> Prop) (t : Task R) (w : World) :
  task_post env J P t -> J w ->
  P (run_task env t w).1 ∧ J (run_task env t w).2.
Proof.
  revert w. induction t as [r|A a k IH]; intros w Ht Hw; simpl in *; [done|].
  destruct (Ht w Hw) as [HJ Hk].
  destruct (exec env a w) as [x w'] eqn:E. simpl in *.
  by apply IH.
Qed.

Lemma task_post_mono (P Q : R -> Prop) (t : Task R) :
  (∀ r, P r -> Q r) -> task_post env J P t -> task_post env J Q t.
Proof.
  intros HPQ. induction t as [r|A a k IH]; simpl; [by auto|].
  intros Ht w Hw. destruct (Ht w Hw). split; [done|]. by apply IH.
Qed.

Lemma elem_of_running_insert (ws : list (option (nat * Task R))) i v job :
  job ∈ omap id (<[i := v]> ws) -> v = Some job ∨ job ∈ omap id ws.
Proof.
  rewrite !list_elem_of_omap. intros (o & Ho & Hid). simpl in Hid. subst o.
  apply list_elem_of_lookup in Ho as [k Hk].
  apply list_lookup_insert_Some in Hk as [(_ & <- & _)|[_ Hk]]; [by left|].
  right. exists (Some job). split; [|done].
  apply list_elem_of_lookup. by exists k.
Qed.

Lemma elem_of_running_remove (ws : list (option (nat * Task R))) i v old job :
  ws !! i = Some old -> job ∈ omap id ws ->
  old = Some job ∨ job ∈ omap id (<[i := v]> ws).
Proof.
  intros Hi. rewrite !list_elem_of_omap. intros (o & Ho & Hid).
  simpl in Hid. subst o.
  apply list_elem_of_lookup in Ho as [k Hk].
  destruct (decide (i = k)) as [->|Hne].
  - left. congruence.
  - right. exists (Some job). split; [|done].
    apply list_elem_of_lookup. exists k. by rewrite list_lookup_insert_ne.
Qed.

Lemma running_lookup (ws : list (option (nat * Task R))) i job :
  ws !! i = Some (Some job) -> job ∈ omap id ws.
Proof.
  intros Hi. apply list_elem_of_omap. exists (Some job). split; [|done].
  apply list_elem_of_lookup. by exists i.
Qed.

Variable post : nat -> R -> Prop.
Variable N : nat.

Lemma pool_step_inv (p : Pool R) (w : World) (i : nat) :
  pool_inv env J post N p -> J w ->
  pool_inv env J post N (pool_step env (p, w) i).1 ∧ J (pool_step env (p, w) i).2.
Proof.
  intros [Hlen Hjobs Hdone Htodo] Hw. unfold pool_step.
  destruct (workers p !! i) as [[[j [r|A a k]]|]|] eqn:Hi; simpl.
  - (* the job of worker i has returned: its future is resolved *)
    split; [|done]. split; simpl.
    + by rewrite length_insert.
    + intros j' t Hin. apply Hjobs.
      unfold pending, running in *; simpl in *.
      apply elem_of_app in Hin as [Hin|Hin]; apply elem_of_app; [|by right].
      apply elem_of_running_insert in Hin as [?|?]; [done|by left].
    + intros j' r'. destruct (decide (j = j')) as [<-|Hne].
      * intros Hl. apply list_lookup_insert_Some in Hl as [(_ & [= <-] & _)|[? _]];
          [|done].
        apply (Hjobs j (Ret r)). apply elem_of_app. left.
        by eapply running_lookup.
      * rewrite list_lookup_insert_ne by done. apply Hdone.
    + intros j'. destruct (decide (j = j')) as [<-|Hne].
      * intros Hl. by apply list_lookup_insert_Some in Hl as [(_ & ? & _)|[? _]].
      * rewrite list_lookup_insert_ne by done. intros Hl.
        destruct (Htodo j' Hl) as [t Hin]. exists t.
        unfold pending, running in *; simpl in *.
        apply elem_of_app in Hin as [Hin|Hin]; apply elem_of_app; [|by right].
        left. destruct (elem_of_running_remove _ i None _ _ Hi Hin) as [Heq|?]; [|done].
        apply (f_equal (fmap fst)) in Heq. by injection Heq.
  - (* the job of worker i performs its next action *)
    pose proof (Hjobs j (Do a k)) as Hjob. simpl in Hjob.
    destruct (Hjob ltac:(apply elem_of_app; left; by eapply running_lookup) w Hw)
      as [HJ Hk].
    destruct (exec env a w) as [x w'] eqn:E. simpl in *.
    split; [|done]. split; simpl; [done| |done|].
    + intros j' t Hin. unfold pending, running in *; simpl in *.
      apply elem_of_app in Hin as [Hin|Hin].
      * apply elem_of_running_insert in Hin as [[= <- <-]|?]; [done|].
        apply Hjobs, elem_of_app. by left.
      * apply Hjobs, elem_of_app. by right.
    + intros j' Hl. destruct (Htodo j' Hl) as [t Hin].
      unfold pending, running in *; simpl in *.
      apply elem_of_app in Hin as [Hin|Hin].
      * destruct (elem_of_running_remove _ i (Some (j, k x)) _ _ Hi Hin) as [Heq|?].
        -- apply (f_equal (fmap fst)) in Heq. injection Heq as <-.
           exists (k x). apply elem_of_app. left.
           eapply running_lookup. apply list_lookup_insert_eq.
           by eapply lookup_lt_Some.
        -- exists t. apply elem_of_app. by left.
      * exists t. apply elem_of_app. by right.
  - (* worker i is idle: it takes the oldest queued job *)
    destruct (queue p) as [|job rest] eqn:Hq; simpl; [done|].
    split; [|done]. split; simpl; [done| |done|].
    + intros j' t Hin. apply Hjobs.
      unfold pending, running in *; simpl in *. rewrite Hq.
      apply elem_of_app in Hin as [Hin|Hin]; apply elem_of_app.
      * apply elem_of_running_insert in Hin as [[= <-]|?]; [|by left].
        right. apply elem_of_cons. by left.
      * right. apply elem_of_cons. by right.
    + intros j' Hl. destruct (Htodo j' Hl) as [t Hin]. exists t.
      unfold pending, running in *; simpl in *. rewrite Hq in Hin.
      apply elem_of_app in Hin as [Hin|Hin]; apply elem_of_app.
      * destruct (elem_of_running_remove _ i (Some job) _ _ Hi Hin) as [?|?];
          [congruence | by left].
      * apply elem_of_cons in Hin as [->|?]; [|by right].
        left. eapply running_lookup. apply list_lookup_insert_eq.
        by eapply lookup_lt_Some.
  - done.
Qed.

Lemma pool_run_inv (sched : list nat) (p : Pool R) (w : World) :
  pool_inv env J post N p -> J w ->
  pool_inv env J post N (foldl (pool_step env) (p, w) sched).1
  ∧ J (foldl (pool_step env) (p, w) sched).2.
Proof.
  revert p w. induction sched as [|i sched IH]; intros p w Hp Hw; [done|].
  cbn [foldl]. destruct (pool_step_inv p w i Hp Hw) as [Hp' Hw'].
  destruct (pool_step env (p, w) i) as [p' w']. by apply IH.
Qed.

Lemma pool_join_spec (jobs : list (nat * Task R)) (fs : list (option R)) (w : World) :
  J w ->
  (∀ j t, (j, t) ∈ jobs -> task_post env J (post j) t) ->
  (∀ j r, fs !! j = Some (Some r) -> post j r) ->
  let st := foldl (finish env) (fs, w) jobs in
  J st.2
  ∧ length st.1 = length fs
  ∧ (∀ j r, st.1 !! j = Some (Some r) -> post j r)
  ∧ (∀ j, st.1 !! j = Some None -> fs !! j = Some None ∧ ∀ t, (j, t) ∉ jobs).
Proof.
  revert fs w. induction jobs as [|[j t] jobs IH]; intros fs w Hw Hjobs Hdone; simpl.
  - split_and!; try done. intros j Hj. split; [done|]. intros t. apply not_elem_of_nil.
  - destruct (run_task_post (post j) t w) as [Hr Hw'];
      [apply Hjobs, elem_of_cons; by left | done |].
    destruct (run_task env t w) as [r w'] eqn:E. simpl in *.
    destruct (IH (<[j := Some r]> fs) w') as (HJ & Hlen & Hdone' & Htodo'); [done| | |].
    + intros j' t' Hin. apply Hjobs, elem_of_cons. by right.
    + intros j' r'. destruct (decide (j = j')) as [<-|Hne].
      * intros Hl. by apply list_lookup_insert_Some in Hl as [(_ & [= <-] & _)|[? _]].
      * rewrite list_lookup_insert_ne by done. apply Hdone.
    + split_and!; [done| by rewrite Hlen, length_insert | done |].
      intros j' Hl. destruct (Htodo' j' Hl) as [Hfs Hnot].
      destruct (decide (j = j')) as [<-|Hne].
      * by apply list_lookup_insert_Some in Hfs as [(_ & ? & _)|[? _]].
      * rewrite list_lookup_insert_ne in Hfs by done. split; [done|].
        intros t' Hin. apply elem_of_cons in Hin as [[= -> ->]|Hin]; [done|].
        by apply (Hnot t').
Qed.

Lemma omap_id_resolved (fs : list (option R)) :
  (∀ j, fs !! j ≠ Some None) -> Some <$> omap id fs = fs.
Proof.
  induction fs as [|[r|] fs IH]; intros Hall; [done| |].
  - cbn. f_equal. apply IH. intros j. apply (Hall (S j)).
  - by destruct (Hall 0).
Qed.

Lemma submit_all_inv (tasks : list (Task R)) (max_workers : nat) :
  (∀ j t, tasks !! j = Some t -> task_post env J (post j) t) ->
  N = length tasks ->
  pool_inv env J post N (submit_all tasks max_workers).
Proof.
  intros Htasks ->.
  assert (Hidle : omap id (replicate max_workers (@None (nat * Task R))) = []).
  { induction max_workers; [done|]. simpl. done. }
  split; simpl.
  - apply length_replicate.
  - intros j t. unfold pending, running; simpl. rewrite Hidle. simpl.
    intros Hin. apply elem_of_lookup_imap in Hin as (j' & t' & [= -> ->] & Hl).
    by apply Htasks.
  - intros j r Hl. by apply lookup_replicate in Hl as [? _].
  - intros j Hl. apply lookup_replicate in Hl as [_ Hlt].
    destruct (lookup_lt_is_Some_2 tasks j Hlt) as [t Ht]. exists t.
    unfold pending, running; simpl. rewrite Hidle. simpl.
    by apply (elem_of_lookup_imap_2 (λ j t, (j, t))).
Qed.

(** Whatever the schedule, [executor.map] returns one result per submitted
    task, the j-th result being one the j-th task can return, and the world
    invariant of the tasks is kept. *)
Lemma executor_map_spec (sched : list nat) (max_workers : nat)
    (tasks : list (Task R)) (w : World) :
  max_workers ≠ 0 -> J w -> N = length tasks ->
  (∀ j t, tasks !! j = Some t -> task_post env J (post j) t) ->
  ∃ rs w', executor_map env sched max_workers tasks w = (inr rs, w')
           ∧ J w' ∧ length rs = length tasks
           ∧ ∀ j r, rs !! j = Some r -> post j r.
Proof.
  intros Hn Hw HN Htasks. unfold executor_map.
  destruct (Nat.eqb_spec max_workers 0) as [?|_]; [done|].
  destruct (pool_run_inv sched _ w (submit_all_inv tasks max_workers Htasks HN) Hw)
    as [Hp Hw1].
  destruct (foldl (pool_step env) (submit_all tasks max_workers, w) sched) as [p w1].
  simpl in Hp, Hw1. destruct Hp as [Hlen Hjobs Hdone Htodo].
  unfold pool_join.
  destruct (pool_join_spec (running p ++ queue p) (futures p) w1 Hw1 Hjobs Hdone)
    as (Hw2 & Hlen2 & Hdone2 & Htodo2).
  destruct (foldl (finish env) (futures p, w1) (running p ++ queue p)) as [fs w2].
  simpl in *. exists (omap id fs), w2.
  assert (Hres : Some <$> omap id fs = fs).
  { apply omap_id_resolved. intros j Hl.
    destruct (Htodo2 j Hl) as [Hf Hnot]. destruct (Htodo j Hf) as [t Hin].
    by apply (Hnot t). }
  split_and!; [done..| |].
  - rewrite <- (length_fmap Some), Hres. congruence.
  - intros j r Hl. apply (Hdone2 j r). rewrite <- Hres, list_lookup_fmap, Hl. done.
Qed.

End PoolLogic.

(** ** The strategies *)

Section Strategies.
Variable env : Env.

Lemma bind_run {A B} (m : M A) (f : A -> M B) (w w1 : World) (x : A) :
  m w = (inr x, w1) -> bind m f w = f x w1.
Proof. intros Hm. unfold bind. by rewrite Hm. Qed.

Lemma bind_raise {A B} (m : M A) (f : A -> M B) (w w1 : World) (e : Exn) :
  m w = (inl e, w1) -> bind m f w = (inl e, w1).
Proof. intros Hm. unfold bind. by rewrite Hm. Qed.

Lemma perf_counter_run (w : World) :
  perf_counter env w = (inr (clock env (ticks w)), tick w).
Proof. reflexivity. Qed.

Lemma nonzero_count (n : nat) : Qeq_bool (inject_Z (Z.of_nat (S n))) 0 = false.
Proof.
  destruct (Qeq_bool _ _) eqn:E; [|done].
  apply Qeq_bool_eq in E. unfold Qeq in E. simpl in E. lia.
Qed.

(** The division of lines 100 and 131 never raises: it is made only on a
    non-empty list of digests. *)
Lemma uniform_latencies_run (process_time : Q) (results : list Z) (w : World) :
  uniform_latencies process_time results w = (inr (uniform process_time results), w).
Proof.
  unfold uniform_latencies, uniform. destruct results as [|z rs]; [done|].
  cbn [truthy length]. unfold bind, py_div. by rewrite nonzero_count.
Qed.

Lemma uniform_nonempty (process_time : Q) (results : list Z) :
  results ≠ [] ->
  uniform process_time results =
  replicate (length results)
    (process_time * 1e6 / inject_Z (Z.of_nat (length results)))%Q.
Proof. by destruct results. Qed.

(** *** Workers *)

Lemma read_worker_post (k : nat) (out : list Line) (tr0 : list Event) (p : Path) :
  task_post env (only_reads_since k out tr0) (fun r => r = payload env p)
    (read_worker p).
Proof.
  simpl. intros w (Hk & Hout & reads & Htr & Hreads). split; [|done].
  split_and!; [done..|]. exists (reads ++ [EvRead p]). split.
  - simpl. by rewrite Htr, app_assoc.
  - apply Forall_app. split; [done|]. by repeat constructor.
Qed.

Lemma hashes_nonempty_emit (out : list Line) (e : Event) (w : World) :
  hash_nonempty e -> hashes_nonempty out w -> hashes_nonempty out (emit e w).
Proof.
  intros He [Hout Htr]. split; [done|]. simpl.
  apply Forall_app. split; [done|]. by repeat constructor.
Qed.

Lemma rust_worker_post (out : list Line) (p : Path) :
  task_post env (hashes_nonempty out)
    (fun r => (payload env p = [] -> r = 0%Q)
              ∧ (payload env p ≠ [] ->
                 ∃ a b : nat, r = ((clock env b - clock env a) * 1e6)%Q))
    (rust_worker p).
Proof.
  simpl. intros w Hw. split; [by apply hashes_nonempty_emit|].
  unfold payload. destruct (file_content env p) as [[|b data]|]; simpl; [done| |done].
  intros w1 Hw1. split; [done|].
  intros w2 Hw2. split; [by apply hashes_nonempty_emit|].
  intros w3 Hw3. split; [done|]. split; [done|].
  intros _. by exists (ticks w1), (ticks w3).
Qed.

Lemma c_worker_post (out : list Line) (p : Path) :
  task_post env (hashes_nonempty out)
    (fun r => (payload env p = [] -> r = 0%Q)
              ∧ (payload env p ≠ [] ->
                 ∃ a b : nat, r = ((clock env b - clock env a) * 1e6)%Q))
    (c_worker p).
Proof.
  simpl. intros w Hw. split; [by apply hashes_nonempty_emit|].
  unfold payload. destruct (file_content env p) as [[|b data]|]; simpl; [done| |done].
  intros w1 Hw1. split; [done|].
  intros w2 Hw2. split; [by apply hashes_nonempty_emit|].
  intros w3 Hw3. split; [done|]. split; [done|].
  intros _. by exists (ticks w1), (ticks w3).
Qed.

(** *** Per-item dispatch *)

Lemma per_item_pool_run (worker : Path -> Task Q) (sched : list nat)
    (files : list (Path * Z)) (n : nat) (w : World) :
  (∀ out p, task_post env (hashes_nonempty out)
     (fun r => (payload env p = [] -> r = 0%Q)
               ∧ (payload env p ≠ [] ->
                  ∃ a b : nat, r = ((clock env b - clock env a) * 1e6)%Q))
     (worker p)) ->
  n ≠ 0 -> Forall hash_nonempty (trace w) ->
  ∃ lat w',
    executor_map env sched n ((fun '(f, _) => worker f) <$> files) w = (inr lat, w')
    ∧ length lat = length files
    ∧ (∀ j r, lat !! j = Some r -> latency_post env files j r)
    ∧ Forall hash_nonempty (trace w')
    ∧ stdout w' = stdout w.
Proof.
  intros Hworker Hn Htr.
  destruct (executor_map_spec env (hashes_nonempty (stdout w))
              (latency_post env files) (length files) sched n
              ((fun '(f, _) => worker f) <$> files) w)
    as (lat & w' & Hrun & [Hout Htr'] & Hlen & Hpost).
  - done.
  - done.
  - by rewrite length_fmap.
  - intros j t Hj. apply list_lookup_fmap_Some in Hj as ([p sz] & -> & Hf).
    eapply task_post_mono; [|apply Hworker].
    intros r Hr p' sz' Hf'. rewrite Hf in Hf'. by injection Hf' as <- <-.
  - exists lat, w'. rewrite length_fmap in Hlen. done.
Qed.

Lemma python_threading_rust_run (sched : list nat) (files : list (Path * Z))
    (n : nat) (w : World) :
  HAS_RUST env = true -> n ≠ 0 -> Forall hash_nonempty (trace w) ->
  ∃ total_time lat w',
    benchmark_python_threading_rust env sched files n w
      = (inr (total_time, lat), w')
    ∧ length lat = length files
    ∧ (∀ j r, lat !! j = Some r -> latency_post env files j r)
    ∧ Forall hash_nonempty (trace w')
    ∧ stdout w' = stdout w.
Proof.
  intros Hrust Hn Htr. unfold benchmark_python_threading_rust. rewrite Hrust. simpl.
  rewrite (bind_run _ _ _ _ _ (perf_counter_run w)).
  destruct (per_item_pool_run rust_worker sched files n (tick w))
    as (lat & w1 & Hrun & Hlen & Hpost & Htr1 & Hout); [apply rust_worker_post|done..|].
  rewrite (bind_run _ _ _ _ _ Hrun).
  rewrite (bind_run _ _ _ _ _ (perf_counter_run w1)).
  by eexists _, lat, _.
Qed.

Lemma c_threading_run (sched : list nat) (files : list (Path * Z))
    (n : nat) (w : World) :
  HAS_XXHASH env = true -> n ≠ 0 -> Forall hash_nonempty (trace w) ->
  ∃ total_time lat w',
    benchmark_c_threading env sched files n w = (inr (total_time, lat), w')
    ∧ length lat = length files
    ∧ (∀ j r, lat !! j = Some r -> latency_post env files j r)
    ∧ Forall hash_nonempty (trace w')
    ∧ stdout w' = stdout w.
Proof.
  intros Hc Hn Htr. unfold benchmark_c_threading. rewrite Hc. simpl.
  rewrite (bind_run _ _ _ _ _ (perf_counter_run w)).
  destruct (per_item_pool_run c_worker sched files n (tick w))
    as (lat & w1 & Hrun & Hlen & Hpost & Htr1 & Hout); [apply c_worker_post|done..|].
  rewrite (bind_run _ _ _ _ _ Hrun).
  rewrite (bind_run _ _ _ _ _ (perf_counter_run w1)).
  by eexists _, lat, _.
Qed.

(** *** Batch dispatch *)

Lemma corpus_payloads_cons (p : Path) (sz : Z) (files : list (Path * Z)) :
  corpus_payloads env ((p, sz) :: files) =
  (if truthy (payload env p) then [payload env p] else [])
    ++ corpus_payloads env files.
Proof.
  unfold corpus_payloads. rewrite fmap_cons, filter_cons. simpl.
  destruct (truthy (payload env p)); by case_decide.
Qed.

Lemma read_loop_run (files : list (Path * Z)) (data_list : list bytes) (w : World) :
  read_loop env files data_list w =
  (inr (data_list ++ corpus_payloads env files),
   {| ticks := ticks w;
      trace := trace w ++ ((fun f => EvRead f.1) <$> files);
      stdout := stdout w |}).
Proof.
  revert data_list w. induction files as [|[p sz] files IH]; intros data_list w.
  - simpl. unfold ret. rewrite !app_nil_r. by destruct w.
  - cbn [read_loop]. unfold bind, call. cbn [read_file run_task task_bind perform exec].
    rewrite IH, corpus_payloads_cons. unfold payload. simpl.
    f_equal; [|by rewrite <- app_assoc].
    destruct (file_content env p) as [[|b data]|]; simpl; try done.
    by rewrite <- app_assoc.
Qed.

Lemma rust_parallel_batch_run (files : list (Path * Z)) (w : World)
    (batch : list bytes -> list Z) :
  HAS_RUST env = true -> batch_xxh64 env = Some batch ->
  let k := ticks w in
  let data_list := corpus_payloads env files in
  let read_time := (clock env (1 + k) - clock env k)%Q in
  let process_time := (clock env (3 + k) - clock env (2 + k))%Q in
  benchmark_rust_parallel_batch env files w =
  (inr (process_time, uniform process_time (batch data_list)),
   {| ticks := 4 + k;
      trace := trace w ++ ((fun f => EvRead f.1) <$> files) ++ [EvBatch data_list];
      stdout := stdout w ++ [Value "I/O time" read_time;
                             Value "Processing time" process_time] |}).
Proof.
  intros Hrust Hbatch. unfold benchmark_rust_parallel_batch.
  rewrite Hrust, Hbatch.
  rewrite (bind_run _ _ _ _ _ (perf_counter_run w)).
  rewrite (bind_run _ _ _ _ _ (read_loop_run files [] (tick w))).
  unfold bind at 1. cbn [perf_counter call run_task perform exec ticks].
  unfold bind at 1. cbn [perf_counter call run_task perform exec ticks tick].
  unfold bind at 1. cbn [call_batch].
  unfold bind at 1. cbn [perf_counter call run_task perform exec ticks emit].
  rewrite (bind_run _ _ _ _ _ (uniform_latencies_run _ _ _)).
  unfold bind, print, ret, put_line. simpl.
  by rewrite <- !app_assoc.
Qed.

Lemma read_pool_results (files : list (Path * Z)) (rs : list bytes) :
  length rs = length files ->
  (∀ j r, rs !! j = Some r -> ∀ p sz, files !! j = Some (p, sz) -> r = payload env p) ->
  rs = (fun f => payload env f.1) <$> files.
Proof.
  intros Hlen Hpost. apply list_eq. intros j. rewrite list_lookup_fmap.
  destruct (files !! j) as [[p sz]|] eqn:Hf; simpl.
  - destruct (lookup_lt_is_Some_2 rs j) as [r Hr].
    { rewrite Hlen. by eapply lookup_lt_Some. }
    rewrite Hr. f_equal. by eapply Hpost.
  - apply lookup_ge_None. rewrite Hlen. by apply lookup_ge_None.
Qed.

(** The parallel read: whatever the schedule, the pool returns the payloads
    in corpus order, and all it does is read files. *)
Lemma read_pool_run (sched : list nat) (files : list (Path * Z)) (n : nat)
    (w : World) :
  n ≠ 0 ->
  ∃ reads,
    executor_map env sched n ((fun '(f, _) => read_worker f) <$> files) w
    = (inr ((fun f => payload env f.1) <$> files),
       {| ticks := ticks w; trace := trace w ++ reads; stdout := stdout w |})
    ∧ Forall (fun e => is_read e = true) reads.
Proof.
  intros Hn.
  destruct (executor_map_spec env (only_reads_since (ticks w) (stdout w) (trace w))
              (fun j r => ∀ p sz, files !! j = Some (p, sz) -> r = payload env p)
              (length files) sched n
              ((fun '(f, _) => read_worker f) <$> files) w)
    as (rs & w' & Hrun & (Hk & Hout & reads & Htr & Hreads) & Hlen & Hpost).
  - done.
  - split_and!; [done..|]. exists []. by rewrite app_nil_r.
  - by rewrite length_fmap.
  - intros j t Hj. apply list_lookup_fmap_Some in Hj as ([p sz] & -> & Hf).
    eapply task_post_mono; [|apply read_worker_post].
    simpl. intros r -> p' sz' Hf'. rewrite Hf in Hf'. by injection Hf' as <- <-.
  - exists reads. split; [|done]. rewrite Hrun. f_equal.
    + f_equal. rewrite length_fmap in Hlen. by apply read_pool_results.
    + destruct w'. simpl in *. by subst.
Qed.

Lemma hybrid_run (sched : list nat) (files : list (Path * Z)) (n : nat)
    (w : World) (batch : list bytes -> list Z) :
  HAS_RUST env = true -> batch_xxh64 env = Some batch -> n ≠ 0 ->
  let k := ticks w in
  let data_list := corpus_payloads env files in
  let read_time := (clock env (1 + k) - clock env k)%Q in
  let process_time := (clock env (3 + k) - clock env (2 + k))%Q in
  ∃ reads,
    benchmark_rust_parallel_batch_with_reading env sched files n w =
    (inr (process_time, uniform process_time (batch data_list)),
     {| ticks := 4 + k;
        trace := trace w ++ reads ++ [EvBatch data_list];
        stdout := stdout w ++ [Value "I/O time" read_time;
                               Value "Processing time" process_time] |})
    ∧ Forall (fun e => is_read e = true) reads.
Proof.
  intros Hrust Hbatch Hn. simpl.
  destruct (read_pool_run sched files n (tick w) Hn) as (reads & Hrun & Hreads).
  exists reads. split; [|done].
  unfold benchmark_rust_parallel_batch_with_reading.
  rewrite Hrust, Hbatch.
  rewrite (bind_run _ _ _ _ _ (perf_counter_run w)).
  rewrite (bind_run _ _ _ _ _ Hrun).
  unfold bind at 1. cbn [perf_counter call run_task perform exec ticks].
  unfold bind at 1. cbn [perf_counter call run_task perform exec ticks tick].
  unfold bind at 1. cbn [call_batch].
  unfold bind at 1. cbn [perf_counter call run_task perform exec ticks emit].
  rewrite (bind_run _ _ _ _ _ (uniform_latencies_run _ _ _)).
  unfold bind, print, ret, put_line. simpl.
  by rewrite <- !app_assoc.
Qed.

End Strategies.

(** ** Properties of the strategy runs *)

Lemma read_phase_first_reads (reads : list Event) (data_list : list bytes) :
  Forall (fun e => is_read e = true) reads ->
  read_phase_first (reads ++ [EvBatch data_list]) = true.
Proof.
  induction 1 as [|e reads He _ IH]; simpl; [done|]. by rewrite He.
Qed.

(** C7. For every corpus and every schedule of the worker pool, the parallel
    read returns the payloads in corpus order: the j-th entry of the list the
    pool returns is the payload of the j-th file of the corpus.  The hybrid
    strategy drops the empty payloads from it and passes the rest, still in
    corpus order, to the batch primitive. *)
Theorem parallel_read_keeps_corpus_order (env : Env) (sched : list nat)
    (files : list (Path * Z)) (num_threads : nat) (w : World) :
  num_threads ≠ 0 ->
  (∃ w', executor_map env sched num_threads
           ((fun '(f, _) => read_worker f) <$> files) w
         = (inr ((fun f => payload env f.1) <$> files), w'))
  ∧ (∀ batch, HAS_RUST env = true -> batch_xxh64 env = Some batch ->
       ∃ reads,
         trace (benchmark_rust_parallel_batch_with_reading env sched files
                  num_threads w).2
         = trace w ++ reads ++ [EvBatch (corpus_payloads env files)]).
Proof.
  intros Hn. split.
  - destruct (read_pool_run env sched files num_threads w Hn) as (reads & Hrun & _).
    eauto.
  - intros batch Hrust Hbatch.
    destruct (hybrid_run env sched files num_threads w batch Hrust Hbatch Hn)
      as (reads & Hrun & _).
    exists reads. by rewrite Hrun.
Qed.

Lemma parallel_read_keeps_corpus_order_witness :
  ∃ w', executor_map env_demo [0; 1; 1; 0] 2
          ((fun '(f, _) => read_worker f) <$> demo_files) world0
        = (inr [one_byte; one_byte; []], w').
Proof.
  assert (Hn : 2 ≠ 0) by (intros H; discriminate H).
  exact (proj1 (parallel_read_keeps_corpus_order env_demo [0; 1; 1; 0]
                  demo_files 2 world0 Hn)).
Defined.

(** C6. For every corpus and every schedule, a per-item strategy (with the
    Rust primitive or with the C one) returns one latency per corpus item,
    in corpus order: the latency list is as long as the corpus, the entry of
    an item whose payload is empty is zero, the entry of any other item is a
    clock difference in microseconds; and no hashing call is made on an
    empty payload. *)
Theorem per_item_latencies_aligned (env : Env) (sched : list nat)
    (files : list (Path * Z)) (num_threads : nat) (w : World) :
  num_threads ≠ 0 -> Forall hash_nonempty (trace w) ->
  (HAS_RUST env = true ->
     ∃ total_time latencies w',
       benchmark_python_threading_rust env sched files num_threads w
         = (inr (total_time, latencies), w')
       ∧ length latencies = length files
       ∧ (∀ j p sz, files !! j = Some (p, sz) ->
            ∃ r, latencies !! j = Some r
                 ∧ (payload env p = [] -> r = 0%Q)
                 ∧ (payload env p ≠ [] ->
                    ∃ a b : nat, r = ((clock env b - clock env a) * 1e6)%Q))
       ∧ Forall hash_nonempty (trace w'))
  ∧ (HAS_XXHASH env = true ->
     ∃ total_time latencies w',
       benchmark_c_threading env sched files num_threads w
         = (inr (total_time, latencies), w')
       ∧ length latencies = length files
       ∧ (∀ j p sz, files !! j = Some (p, sz) ->
            ∃ r, latencies !! j = Some r
                 ∧ (payload env p = [] -> r = 0%Q)
                 ∧ (payload env p ≠ [] ->
                    ∃ a b : nat, r = ((clock env b - clock env a) * 1e6)%Q))
       ∧ Forall hash_nonempty (trace w')).
Proof.
  intros Hn Htr. split.
  - intros Hrust.
    destruct (python_threading_rust_run env sched files num_threads w Hrust Hn Htr)
      as (t & lat & w' & Hrun & Hlen & Hpost & Htr' & _).
    exists t, lat, w'. split_and!; [done..| |done].
    intros j p sz Hf.
    destruct (lookup_lt_is_Some_2 lat j) as [r Hr].
    { rewrite Hlen. by eapply lookup_lt_Some. }
    exists r. split; [done|]. by apply (Hpost j r Hr p sz).
  - intros Hc.
    destruct (c_threading_run env sched files num_threads w Hc Hn Htr)
      as (t & lat & w' & Hrun & Hlen & Hpost & Htr' & _).
    exists t, lat, w'. split_and!; [done..| |done].
    intros j p sz Hf.
    destruct (lookup_lt_is_Some_2 lat j) as [r Hr].
    { rewrite Hlen. by eapply lookup_lt_Some. }
    exists r. split; [done|]. by apply (Hpost j r Hr p sz).
Qed.

Lemma per_item_latencies_aligned_witness :
  ∃ total_time latencies w',
    benchmark_python_threading_rust env_demo [0; 1; 0; 1; 1; 1] demo_files 2 world0
      = (inr (total_time, latencies), w')
    ∧ length latencies = length demo_files.
Proof.
  assert (Hn : 2 ≠ 0) by (intros H; discriminate H).
  destruct (per_item_latencies_aligned env_demo [0; 1; 0; 1; 1; 1] demo_files 2
              world0 Hn (Forall_nil_2 _)) as [Hrust _].
  destruct (Hrust eq_refl) as (t & lat & w' & Hrun & Hlen & _).
  by exists t, lat, w'.
Defined.

(** C4 (as the code has it). In both batch-dispatch strategies the read
    phase is over before the compute phase begins: the events of a run are
    the file reads, in corpus order for the sequential read and in schedule
    order for the parallel one, followed by the one batch hashing call.  A
    per-item worker, in contrast, reads its file and hashes it in one and
    the same task. *)
Theorem batch_reads_before_hash (env : Env) (sched : list nat)
    (files : list (Path * Z)) (num_threads : nat) (w : World)
    (batch : list bytes -> list Z) :
  HAS_RUST env = true -> batch_xxh64 env = Some batch -> num_threads ≠ 0 ->
  (∃ events,
     trace (benchmark_rust_parallel_batch env files w).2 = trace w ++ events
     ∧ events = ((fun f => EvRead f.1) <$> files) ++ [EvBatch (corpus_payloads env files)]
     ∧ read_phase_first events = true)
  ∧ (∃ events reads,
     trace (benchmark_rust_parallel_batch_with_reading env sched files
              num_threads w).2 = trace w ++ events
     ∧ events = reads ++ [EvBatch (corpus_payloads env files)]
     ∧ Forall (fun e => is_read e = true) reads
     ∧ read_phase_first events = true)
  ∧ (∀ p, payload env p ≠ [] ->
       trace (run_task env (rust_worker p) w).2
         = trace w ++ [EvRead p; EvXxh64 (payload env p)]
       ∧ trace (run_task env (c_worker p) w).2
         = trace w ++ [EvRead p; EvDigest (payload env p)]).
Proof.
  intros Hrust Hbatch Hn. split_and!.
  - eexists. split; [|split; [reflexivity|]].
    + by rewrite (rust_parallel_batch_run env files w batch Hrust Hbatch).
    + apply read_phase_first_reads. apply Forall_fmap. by apply Forall_true.
  - destruct (hybrid_run env sched files num_threads w batch Hrust Hbatch Hn)
      as (reads & Hrun & Hreads).
    exists (reads ++ [EvBatch (corpus_payloads env files)]), reads.
    split_and!; [by rewrite Hrun|done..|].
    by apply read_phase_first_reads.
  - intros p. unfold payload. simpl.
    destruct (file_content env p) as [[|b data]|]; [done| |done].
    intros _. simpl. by rewrite <- !app_assoc.
Qed.

Lemma batch_reads_before_hash_witness :
  read_phase_first
    (trace (benchmark_rust_parallel_batch env_demo demo_files world0).2) = true.
Proof.
  assert (Hn : 2 ≠ 0) by (intros H; discriminate H).
  destruct (batch_reads_before_hash env_demo [] demo_files 2 world0 _
              eq_refl eq_refl Hn) as ((events & Htr & _ & Hfirst) & _ & _).
  rewrite Htr. exact Hfirst.
Defined.

(** C4, the claim as stated, fails for per-item dispatch: with one worker
    doing all the work, the file d/c is read after d/a was hashed. *)
Lemma per_item_read_after_hash :
  ∃ total_time latencies w',
    benchmark_python_threading_rust env_demo (replicate 18 0) demo_files 2 world0
      = (inr (total_time, latencies), w')
    ∧ trace w' = [EvRead "d/a"; EvXxh64 one_byte; EvRead "d/c"; EvXxh64 one_byte;
                  EvRead "d/b"]
    ∧ read_phase_first (trace w') = false.
Proof.
  eexists _, _, _. split; [vm_compute; reflexivity|]. split; reflexivity.
Qed.

(** ** What the batch strategies return *)

(** C1 (as the code has it). The hybrid strategy measures the read phase and
    the compute phase as two separate clock spans and prints both; the time
    it returns, which [main] prints as "Processing time" and uses for the
    throughput, is the compute span alone, not the sum of the two. *)
Theorem hybrid_returns_processing_time (env : Env) (sched : list nat)
    (files : list (Path * Z)) (num_threads : nat) (w : World)
    (batch : list bytes -> list Z) :
  HAS_RUST env = true -> batch_xxh64 env = Some batch -> num_threads ≠ 0 ->
  let k := ticks w in
  let read_time := (clock env (1 + k) - clock env k)%Q in
  let process_time := (clock env (3 + k) - clock env (2 + k))%Q in
  ∃ latencies w',
    benchmark_rust_parallel_batch_with_reading env sched files num_threads w
      = (inr (process_time, latencies), w')
    ∧ stdout w' = stdout w ++ [Value "I/O time" read_time;
                               Value "Processing time" process_time].
Proof.
  intros Hrust Hbatch Hn. simpl.
  destruct (hybrid_run env sched files num_threads w batch Hrust Hbatch Hn)
    as (reads & Hrun & _).
  eexists _, _. split; [exact Hrun|done].
Qed.

Lemma hybrid_returns_processing_time_witness :
  ∃ latencies w',
    benchmark_rust_parallel_batch_with_reading env_demo [1; 1; 0; 0] demo_files 2
      world0
      = (inr ((clock env_demo 3 - clock env_demo 2)%Q, latencies), w').
Proof.
  assert (Hn : 2 ≠ 0) by (intros H; discriminate H).
  destruct (hybrid_returns_processing_time env_demo [1; 1; 0; 0] demo_files 2
              world0 _ eq_refl eq_refl Hn) as (lat & w' & Hrun & _).
  by exists lat, w'.
Defined.

(** C1, the claim as stated, fails: a hybrid run that spends one second
    reading and one second hashing returns one second, not two. *)
Lemma returned_time_is_not_the_sum :
  ∃ time latencies w' io_time compute_time,
    benchmark_rust_parallel_batch_with_reading env_demo [1; 1; 0; 0] demo_files 2
      world0 = (inr (time, latencies), w')
    ∧ stdout w' = [Value "I/O time" io_time; Value "Processing time" compute_time]
    ∧ ¬ (time == io_time + compute_time)%Q.
Proof.
  eexists _, _, _, _, _. split; [vm_compute; reflexivity|].
  split; [reflexivity|]. intros H. discriminate H.
Qed.

(** C8. For every batch run whose hashing call returns at least one digest,
    in both batch strategies, the latency list is uniform: it has one entry
    per returned digest and every entry is the elapsed compute time, in
    microseconds, divided by the number of returned digests. *)
Theorem batch_latencies_uniform (env : Env) (sched : list nat)
    (files : list (Path * Z)) (num_threads : nat) (w : World)
    (batch : list bytes -> list Z) :
  HAS_RUST env = true -> batch_xxh64 env = Some batch -> num_threads ≠ 0 ->
  let results := batch (corpus_payloads env files) in
  results ≠ [] ->
  (∃ process_time latencies w',
     benchmark_rust_parallel_batch env files w = (inr (process_time, latencies), w')
     ∧ length latencies = length results
     ∧ Forall (fun x => x = (process_time * 1e6
                             / inject_Z (Z.of_nat (length results)))%Q) latencies)
  ∧ (∃ process_time latencies w',
     benchmark_rust_parallel_batch_with_reading env sched files num_threads w
       = (inr (process_time, latencies), w')
     ∧ length latencies = length results
     ∧ Forall (fun x => x = (process_time * 1e6
                             / inject_Z (Z.of_nat (length results)))%Q) latencies).
Proof.
  intros Hrust Hbatch Hn results Hres. split.
  - eexists _, _, _. split;
      [apply (rust_parallel_batch_run env files w batch Hrust Hbatch)|].
    fold results. rewrite (uniform_nonempty _ _ Hres).
    split; [apply length_replicate | apply Forall_replicate; done].
  - destruct (hybrid_run env sched files num_threads w batch Hrust Hbatch Hn)
      as (reads & Hrun & _).
    eexists _, _, _. split; [exact Hrun|].
    fold results. rewrite (uniform_nonempty _ _ Hres).
    split; [apply length_replicate | apply Forall_replicate; done].
Qed.

Lemma batch_latencies_uniform_witness :
  ∃ process_time latencies w',
    benchmark_rust_parallel_batch env_demo demo_files world0
      = (inr (process_time, latencies), w')
    ∧ length latencies = 2.
Proof.
  assert (Hn : 2 ≠ 0) by (intros H; discriminate H).
  assert (Hres : [7%Z; 7%Z] ≠ []) by (intros H; discriminate H).
  destruct (batch_latencies_uniform env_demo [] demo_files 2 world0 _
              eq_refl eq_refl Hn Hres) as [(t & lat & w' & Hrun & Hlen & _) _].
  by exists t, lat, w'.
Defined.

(** C10. In both batch strategies the division by the number of returned
    digests is made only on a non-empty list of digests: neither strategy
    ever raises [ZeroDivisionError], and when the batch hashing call returns
    no digest the strategy returns an empty latency list. *)
Theorem batch_latency_division_guarded (env : Env) (sched : list nat)
    (files : list (Path * Z)) (num_threads : nat) (w : World) :
  (benchmark_rust_parallel_batch env files w).1 ≠ inl ZeroDivisionError
  ∧ (benchmark_rust_parallel_batch_with_reading env sched files num_threads w).1
      ≠ inl ZeroDivisionError
  ∧ (∀ batch,
       HAS_RUST env = true -> batch_xxh64 env = Some batch ->
       batch (corpus_payloads env files) = [] ->
       (∃ process_time w',
          benchmark_rust_parallel_batch env files w = (inr (process_time, []), w'))
       ∧ (num_threads ≠ 0 ->
          ∃ process_time w',
            benchmark_rust_parallel_batch_with_reading env sched files
              num_threads w = (inr (process_time, []), w'))).
Proof.
  split_and!.
  - destruct (HAS_RUST env) eqn:Hrust, (batch_xxh64 env) as [batch|] eqn:Hbatch;
      try (unfold benchmark_rust_parallel_batch; rewrite Hrust, ?Hbatch; done).
    by rewrite (rust_parallel_batch_run env files w batch Hrust Hbatch).
  - destruct (HAS_RUST env) eqn:Hrust, (batch_xxh64 env) as [batch|] eqn:Hbatch;
      try (unfold benchmark_rust_parallel_batch_with_reading;
           rewrite Hrust, ?Hbatch; done).
    destruct (decide (num_threads = 0)) as [->|Hn].
    + unfold benchmark_rust_parallel_batch_with_reading. by rewrite Hrust, Hbatch.
    + destruct (hybrid_run env sched files num_threads w batch Hrust Hbatch Hn)
        as (reads & Hrun & _).
      by rewrite Hrun.
  - intros batch Hrust Hbatch Hempty. split.
    + eexists _, _.
      rewrite (rust_parallel_batch_run env files w batch Hrust Hbatch).
      by rewrite Hempty.
    + intros Hn.
      destruct (hybrid_run env sched files num_threads w batch Hrust Hbatch Hn)
        as (reads & Hrun & _).
      eexists _, _. rewrite Hrun. by rewrite Hempty.
Qed.

Lemma batch_latency_division_guarded_witness :
  ∃ process_time w',
    benchmark_rust_parallel_batch env_no_digests demo_files world0
      = (inr (process_time, []), w').
Proof.
  destruct (batch_latency_division_guarded env_no_digests [] demo_files 2 world0)
    as (_ & _ & Hempty).
  exact (proj1 (Hempty _ eq_refl eq_refl eq_refl)).
Defined.

(** ** main *)

Section Main.
Variable env : Env.

Lemma print_run (l : Line) (w : World) : print l w = (inr tt, put_line l w).
Proof. reflexivity. Qed.

Lemma py_div_run (a b : Q) (w : World) :
  Qeq_bool b 0 = false -> py_div a b w = (inr (a / b)%Q, w).
Proof. intros Hb. unfold py_div. by rewrite Hb. Qed.

Lemma py_div_zero (a b : Q) (w : World) :
  Qeq_bool b 0 = true -> py_div a b w = (inl ZeroDivisionError, w).
Proof. intros Hb. unfold py_div. by rewrite Hb. Qed.

Lemma throughput_run (total_size : Z) (time : Q) (w : World) :
  Qeq_bool time 0 = false ->
  throughput total_size time w = (inr (inject_Z total_size / time / 1e6)%Q, w).
Proof.
  intros Ht. unfold throughput.
  rewrite (bind_run _ _ _ _ _ (py_div_run _ _ w Ht)). by apply py_div_run.
Qed.

Lemma throughput_zero (total_size : Z) (time : Q) (w : World) :
  Qeq_bool time 0 = true ->
  throughput total_size time w = (inl ZeroDivisionError, w).
Proof.
  intros Ht. unfold throughput.
  by rewrite (bind_raise _ _ _ _ _ (py_div_zero _ _ w Ht)).
Qed.

Lemma print_avg_latency_run (latencies : list Q) (w : World) :
  ∃ w', print_avg_latency latencies w = (inr tt, w')
        ∧ ticks w' = ticks w ∧ trace w' = trace w.
Proof.
  unfold print_avg_latency. destruct latencies as [|x l]; [by exists w|].
  cbn [truthy length].
  rewrite (bind_run _ _ _ _ _ (py_div_run _ _ w (nonzero_count _))).
  eexists. by rewrite print_run.
Qed.

End Main.

Ltac main_print :=
  rewrite (bind_run _ _ _ _ _ (print_run _ _)).

Ltac main_div :=
  erewrite bind_run;
  [| apply py_div_run; first [reflexivity | apply nonzero_count | eassumption]].

(** C2 (as the code has it). A strategy whose primitive is unavailable
    returns the zero-valued result [(0, [])] and touches nothing; but [main]
    requires both primitives: when either is missing it prints
    "Error: Both libraries required" and exits with status 1 before any
    strategy is run. *)
Theorem missing_primitive_stops_main (env : Env) (scheds : Schedules)
    (argv : list string) (w : World) :
  2 <= length argv ->
  path_exists env (nth 1 argv "") = true ->
  get_files env (nth 1 argv "") 1000 ≠ [] ->
  HAS_RUST env = false ∨ HAS_XXHASH env = false ->
  (∃ w', main env scheds argv w = (inl (SystemExit 1), w')
         ∧ trace w' = trace w ∧ ticks w' = ticks w
         ∧ last (stdout w') = Some (Text "Error: Both libraries required"))
  ∧ (HAS_RUST env = false -> ∀ sched files n w0,
       benchmark_python_threading_rust env sched files n w0 = (inr (0%Q, []), w0)
       ∧ benchmark_rust_parallel_batch env files w0 = (inr (0%Q, []), w0)
       ∧ benchmark_rust_parallel_batch_with_reading env sched files n w0
         = (inr (0%Q, []), w0))
  ∧ (HAS_XXHASH env = false -> ∀ sched files n w0,
       benchmark_c_threading env sched files n w0 = (inr (0%Q, []), w0)).
Proof.
  intros Hargv Hdir Hfiles Hmissing. split_and!.
  - unfold main.
    destruct (Nat.ltb_spec (length argv) 2) as [?|_]; [lia|].
    rewrite Hdir. cbv beta iota zeta. cbn [negb].
    destruct (get_files env (nth 1 argv "") 1000) as [|f files] eqn:Hf; [done|].
    do 2 main_print.
    main_div. main_print. main_div. main_div.
    do 3 main_print.
    assert (Hgate : negb (HAS_RUST env) || negb (HAS_XXHASH env) = true).
    { destruct Hmissing as [-> | ->]; [done|]. by destruct (HAS_RUST env). }
    destruct (HAS_RUST env) eqn:Hrust;
      [destruct (rayon_threads env (cpu_count env))|];
      main_print || rewrite (bind_run _ _ _ _ _ (eq_refl : ret tt _ = (inr tt, _)));
      main_print; rewrite Hgate; main_print;
      (eexists; split; [reflexivity|]); split_and!; try done;
      simpl; by rewrite last_snoc.
  - intros Hrust sched files n w0.
    unfold benchmark_python_threading_rust, benchmark_rust_parallel_batch,
      benchmark_rust_parallel_batch_with_reading. by rewrite Hrust.
  - intros Hc sched files n w0. unfold benchmark_c_threading. by rewrite Hc.
Qed.

Lemma missing_primitive_stops_main_witness :
  ∃ w', main env_demo_later demo_schedules ["benchmark"; "d"] world0
        = (inl (SystemExit 1), w').
Proof.
  assert (Hargv : 2 <= length ["benchmark"; "d"]) by (apply le_n).
  assert (Hfiles : get_files env_demo_later "d" 1000 ≠ [])
    by (intros H; discriminate H).
  destruct (missing_primitive_stops_main env_demo_later demo_schedules
              ["benchmark"; "d"] world0 Hargv eq_refl Hfiles (or_introl eq_refl))
    as [(w' & Hrun & _) _].
  by exists w'.
Defined.

(** C2, the claim as stated, fails: with the Rust primitive missing and the
    C one present, the harness stops with status 1; no strategy is run, so
    nothing is hashed and no time of the C strategy is reported. *)
Lemma missing_rust_aborts_comparison :
  ∃ r w',
    main env_demo_later demo_schedules ["benchmark"; "d"] world0 = (r, w')
    ∧ HAS_RUST env_demo_later = false ∧ HAS_XXHASH env_demo_later = true
    ∧ exit_code r = 1%Z
    ∧ trace w' = []
    ∧ Forall (fun l => ∀ v, l ≠ Value "Total time" v) (stdout w').
Proof.
  eexists _, _. split; [vm_compute; reflexivity|].
  split_and!; try reflexivity.
  repeat constructor; intros v H; discriminate H.
Qed.

Ltac main_fails := intros Hfail; discriminate Hfail.

Ltac main_call H :=
  first [ rewrite (bind_run _ _ _ _ _ H); cbv beta iota
        | rewrite (bind_raise _ _ _ _ _ H); main_fails ].

Ltac main_benchmark t lat :=
  match goal with
  | |- context [bind ?m _ ?w] =>
      lazymatch m with
      | benchmark_python_threading_rust _ _ _ _ => idtac
      | benchmark_rust_parallel_batch _ _ => idtac
      | benchmark_rust_parallel_batch_with_reading _ _ _ _ => idtac
      | benchmark_c_threading _ _ _ _ => idtac
      end;
      let H := fresh "Hrun" in
      let w1 := fresh "w" in
      destruct (m w) as [[?|[t lat]] w1] eqn:H; main_call H
  end.

Ltac main_avg_latency env :=
  match goal with
  | |- context [bind (print_avg_latency ?l) _ ?w] =>
      let H := fresh "Havg" in
      let w1 := fresh "w" in
      destruct (print_avg_latency_run l w) as (w1 & H & _ & _); main_call H
  end.

Ltac main_throughput :=
  match goal with
  | |- context [bind (throughput ?s ?t) _ ?w] =>
      first [ rewrite (bind_run _ _ _ _ _ (throughput_run s t w ltac:(eassumption)))
            | let H := fresh "Htime" in
              destruct (Qeq_bool t 0) eqn:H;
              [ rewrite (bind_raise _ _ _ _ _ (throughput_zero s t w H)); main_fails
              | rewrite (bind_run _ _ _ _ _ (throughput_run s t w H)) ] ]
  end.

Ltac row_printed :=
  cbn [stdout put_line];
  repeat first [ apply elem_of_app; right; apply list_elem_of_singleton; reflexivity
               | apply elem_of_app; left ].

Lemma Qeq_bool_false (x : Q) : Qeq_bool x 0 = false -> ¬ (x == 0)%Q.
Proof. intros Hx H. apply Qeq_bool_iff in H. congruence. Qed.

(** C3 (as the code has it). The throughput of a strategy is
    [total_size / time / 1e6] with no guard against a zero time and no
    "undefined" value: whenever [main] finishes, the corpus was not empty,
    each of the four strategies returned a non-zero time, and the summary
    table shows for each of them exactly that quotient. *)
Theorem finished_report_has_nonzero_times (env : Env) (scheds : Schedules)
    (argv : list string) (w w' : World) :
  main env scheds argv w = (inr tt, w') ->
  let files := get_files env (nth 1 argv "") 1000 in
  let total_size := inject_Z (sumZ (snd <$> files)) in
  files ≠ []
  ∧ ∃ python_time rust_time hybrid_time c_time : Q,
      (∃ latencies w1 w2,
         benchmark_python_threading_rust env (sched_python scheds) files
           (cpu_count env) w1 = (inr (python_time, latencies), w2))
      ∧ (∃ latencies w1 w2,
         benchmark_rust_parallel_batch env files w1
           = (inr (rust_time, latencies), w2))
      ∧ (∃ latencies w1 w2,
         benchmark_rust_parallel_batch_with_reading env (sched_hybrid scheds)
           files (cpu_count env) w1 = (inr (hybrid_time, latencies), w2))
      ∧ (∃ latencies w1 w2,
         benchmark_c_threading env (sched_c scheds) files (cpu_count env) w1
           = (inr (c_time, latencies), w2))
      ∧ ¬ (python_time == 0)%Q ∧ ¬ (rust_time == 0)%Q
      ∧ ¬ (hybrid_time == 0)%Q ∧ ¬ (c_time == 0)%Q
      ∧ Row "Python Threads + Rust (individual)" python_time
          (total_size / python_time / 1e6)%Q None ∈ stdout w'
      ∧ Row "Rust Rayon (batch, seq I/O)" rust_time
          (total_size / rust_time / 1e6)%Q (Some (python_time / rust_time)%Q)
          ∈ stdout w'
      ∧ Row "Hybrid: Py Threads + Rust Rayon" hybrid_time
          (total_size / hybrid_time / 1e6)%Q (Some (python_time / hybrid_time)%Q)
          ∈ stdout w'
      ∧ Row "Python Threads + C (individual)" c_time
          (total_size / c_time / 1e6)%Q (Some (python_time / c_time)%Q)
          ∈ stdout w'.
Proof.
  unfold main.
  destruct (Nat.ltb_spec (length argv) 2) as [?|_]; [main_print; main_fails|].
  destruct (path_exists env (nth 1 argv "")); cbn [negb];
    [|main_print; main_fails].
  cbv beta iota zeta.
  destruct (get_files env (nth 1 argv "") 1000) as [|f files] eqn:Hf.
  { do 2 main_print. main_div. main_print.
    erewrite bind_raise by (apply py_div_zero; reflexivity). main_fails. }
  do 2 main_print. main_div. main_print. main_div. main_div. do 3 main_print.
  assert (Hrayon : ∀ w0, ∃ w1,
             (if HAS_RUST env
              then match rayon_threads env (cpu_count env) with
                   | Some n => print (Count "Rayon threads configured" n)
                   | None => ret tt
                   end
              else ret tt) w0 = (inr tt, w1)).
  { intros w0. destruct (HAS_RUST env); [destruct (rayon_threads _ _)|]; by eexists. }
  match goal with
  | |- context [bind _ _ ?w0] => destruct (Hrayon w0) as [w1 Hw1]
  end.
  main_call Hw1. clear Hrayon Hw1. main_print.
  destruct (negb (HAS_RUST env) || negb (HAS_XXHASH env));
    [main_print; main_fails|].
  do 4 main_print.
  main_benchmark python_time python_latencies.
  main_print. main_avg_latency env. main_throughput. do 2 main_print.
  main_benchmark rust_time rust_latencies.
  main_print. main_avg_latency env. main_throughput. do 2 main_print.
  main_benchmark hybrid_time hybrid_latencies.
  main_print. main_avg_latency env. main_throughput. do 2 main_print.
  main_benchmark c_time c_latencies.
  main_print. main_avg_latency env. main_throughput. do 6 main_print.
  main_throughput. main_print.
  main_throughput. main_div. main_print.
  main_throughput. main_div. main_print.
  main_throughput. main_div. do 2 main_print.
  intros Hdone.
  repeat match type of Hdone with
         | (if ?c then _ else _) _ = _ => destruct c
         end;
    injection Hdone as <-;
    (split; [done|]);
    exists python_time, rust_time, hybrid_time, c_time;
    split_and!; eauto using Qeq_bool_false; row_printed.
Qed.

Lemma finished_report_has_nonzero_times_witness :
  ∃ w', main env_demo demo_schedules ["benchmark"; "d"] world0 = (inr tt, w')
        ∧ get_files env_demo "d" 1000 ≠ [].
Proof.
  exists (main env_demo demo_schedules ["benchmark"; "d"] world0).2.
  assert (Hrun : main env_demo demo_schedules ["benchmark"; "d"] world0
                 = (inr tt, (main env_demo demo_schedules ["benchmark"; "d"] world0).2)).
  { vm_compute. reflexivity. }
  split; [exact Hrun|].
  exact (proj1 (finished_report_has_nonzero_times env_demo demo_schedules
                  ["benchmark"; "d"] world0 _ Hrun)).
Defined.

(** C3, the claim as stated, fails.  On an existing directory without any
    file the harness raises [ZeroDivisionError] at line 176, before any
    strategy is run, and the process status is 1; and when a strategy
    returns a zero time (here: a clock too coarse to see time pass), the
    throughput division of line 205 raises as well. *)
Lemma zero_time_raises :
  (∃ w', main env_empty_dir demo_schedules ["benchmark"; "e"] world0
         = (inl ZeroDivisionError, w')
         ∧ get_files env_empty_dir "e" 1000 = []
         ∧ exit_code (main env_empty_dir demo_schedules ["benchmark"; "e"] world0).1
           = 1%Z
         ∧ trace w' = [])
  ∧ (∃ w', main env_coarse_clock demo_schedules ["benchmark"; "d"] world0
           = (inl ZeroDivisionError, w')
         ∧ Value "Total time" 0 ∈ stdout w'
         ∧ Forall (fun l => ∀ v, l ≠ Value "Throughput" v) (stdout w'))
  ∧ (∀ total_size w, throughput total_size 0 w = (inl ZeroDivisionError, w)).
Proof.
  split_and!.
  - eexists. split; [vm_compute; reflexivity|]. split_and!; reflexivity.
  - eexists. split; [vm_compute; reflexivity|]. split.
    + apply list_elem_of_In. do 12 right. left. reflexivity.
    + repeat constructor; intros v H; discriminate H.
  - intros total_size w. by apply throughput_zero.
Qed.

(** ** Interleavings *)

Section Interleaving.
Context {A : Type}.
Implicit Types (ls : list (list A)) (tr l : list A).

Lemma interleaving_snoc ls tr i l x :
  interleaving ls tr -> ls !! i = Some l ->
  interleaving (<[i := l ++ [x]]> ls) (tr ++ [x]).
Proof.
  intros Hil. revert i l. induction Hil as [ls Hnil|ls i0 y l0 tr Hi0 Hil IH];
    intros i l Hi.
  - assert (l = []) as ->.
    { eapply (proj1 (Forall_lookup _ _) Hnil). exact Hi. }
    simpl. apply (interleaving_cons _ i x []).
    + apply list_lookup_insert_eq. by eapply lookup_lt_Some.
    + rewrite list_insert_insert_eq. rewrite list_insert_id by done.
      by constructor.
  - simpl. destruct (decide (i = i0)) as [->|Hne].
    + rewrite Hi0 in Hi. injection Hi as <-.
      apply (interleaving_cons _ i0 y (l0 ++ [x])).
      * apply list_lookup_insert_eq. by eapply lookup_lt_Some.
      * rewrite list_insert_insert_eq.
        pose proof (IH i0 l0) as Hstep.
        rewrite list_insert_insert_eq in Hstep. apply Hstep.
        apply list_lookup_insert_eq. by eapply lookup_lt_Some.
    + apply (interleaving_cons _ i0 y l0).
      * by rewrite list_lookup_insert_ne.
      * rewrite list_insert_insert_ne by done.
        apply IH. by rewrite list_lookup_insert_ne.
Qed.

Lemma interleaving_app ls tr i l es :
  interleaving ls tr -> ls !! i = Some l ->
  interleaving (<[i := l ++ es]> ls) (tr ++ es).
Proof.
  revert ls tr l. induction es as [|e es IH]; intros ls tr l Hil Hi.
  - rewrite !app_nil_r. by rewrite list_insert_id.
  - pose proof (interleaving_snoc ls tr i l e Hil Hi) as Hil'.
    apply (IH _ _ (l ++ [e])) in Hil'.
    + rewrite list_insert_insert_eq in Hil'. by rewrite <- !app_assoc in Hil'.
    + apply list_lookup_insert_eq. by eapply lookup_lt_Some.
Qed.

Lemma concat_insert_cons ls i x l :
  ls !! i = Some (x :: l) -> concat ls ≡ₚ x :: concat (<[i := l]> ls).
Proof.
  intros Hi.
  rewrite <- (take_drop_middle ls i (x :: l) Hi) at 1.
  rewrite insert_take_drop by (by eapply lookup_lt_Some).
  rewrite !concat_app. simpl.
  symmetry. apply Permutation_middle.
Qed.

(** A merge has exactly the elements of its parts. *)
Lemma interleaving_perm ls tr : interleaving ls tr -> tr ≡ₚ concat ls.
Proof.
  induction 1 as [ls Hnil|ls i x l tr Hi _ IH].
  - induction Hnil as [|? ? -> _ IH]; [done|]. simpl. exact IH.
  - rewrite (concat_insert_cons ls i x l Hi). by constructor.
Qed.

(** Each part occurs in the merge in its own order. *)
Lemma interleaving_sublist ls tr i l :
  interleaving ls tr -> ls !! i = Some l -> sublist l tr.
Proof.
  intros Hil. revert i l. induction Hil as [ls Hnil|ls i0 x l0 tr Hi0 _ IH];
    intros i l Hi.
  - assert (l = []) as ->; [|constructor].
    eapply (proj1 (Forall_lookup _ _) Hnil). exact Hi.
  - destruct (decide (i = i0)) as [->|Hne].
    + rewrite Hi0 in Hi. injection Hi as <-.
      apply sublist_skip, (IH i0).
      apply list_lookup_insert_eq. by eapply lookup_lt_Some.
    + apply sublist_cons, (IH i). by rewrite list_lookup_insert_ne.
Qed.

End Interleaving.

(** ** The order of events in a pool run *)

Section Ghost.
Variable env : Env.
Context {R : Type}.
Variable events : list (list Event).
Variable tr0 : list Event.
Implicit Types (pend : list (nat * Task R)) (w : World).

Lemma exec_trace {A} (a : Action A) w :
  trace (exec env a w).2 = trace w ++ action_events a.
Proof. destruct a; simpl; by rewrite ?app_nil_r. Qed.

Lemma pool_ghost_perm pend pend' w :
  pend ≡ₚ pend' -> pool_ghost env events tr0 pend w ->
  pool_ghost env events tr0 pend' w.
Proof.
  intros Hp (Hnd & dones & evs & Hlen & Htr & Hil & Hpend & Hrest). split.
  - by rewrite <- Hp.
  - exists dones, evs. split_and!; try done.
    + intros j t Hin. apply Hpend. by rewrite Hp.
    + intros j Hj. apply Hrest. by rewrite Hp.
Qed.

Lemma pool_ghost_advance {A} j (a : Action A) (k : A -> Task R) rest w :
  pool_ghost env events tr0 ((j, Do a k) :: rest) w ->
  pool_ghost env events tr0 ((j, k (exec env a w).1) :: rest) (exec env a w).2.
Proof.
  intros (Hnd & dones & evs & Hlen & Htr & Hil & Hpend & Hrest).
  split; [done|].
  destruct (Hpend j (Do a k)) as (d & rem & Hd & He & Hem); [by left|].
  simpl in Hem. destruct Hem as (rest' & -> & Hk).
  exists (<[j := d ++ action_events a]> dones), (evs ++ action_events a).
  split_and!.
  - by rewrite length_insert.
  - rewrite exec_trace, Htr. by rewrite app_assoc.
  - by apply interleaving_app.
  - intros j' t' Hin. apply elem_of_cons in Hin as [[= -> ->]|Hin].
    + exists (d ++ action_events a), rest'. split_and!.
      * apply list_lookup_insert_eq. by eapply lookup_lt_Some.
      * by rewrite <- app_assoc.
      * apply Hk.
    + assert (j' ≠ j) as Hne.
      { intros ->. apply NoDup_cons in Hnd as [Hnotin _]. apply Hnotin.
        apply list_elem_of_fmap. by exists (j, t'). }
      rewrite list_lookup_insert_ne by done. apply Hpend. by right.
  - intros j' Hj'. rewrite list_lookup_insert_ne; [by apply Hrest|].
    intros ->. apply Hj'. by left.
Qed.

Lemma pool_ghost_return j (r : R) rest w :
  pool_ghost env events tr0 ((j, Ret r) :: rest) w ->
  pool_ghost env events tr0 rest w.
Proof.
  intros (Hnd & dones & evs & Hlen & Htr & Hil & Hpend & Hrest).
  apply NoDup_cons in Hnd as [Hnotin Hnd]. split; [done|].
  exists dones, evs. split_and!; try done.
  - intros j' t' Hin. apply Hpend. by right.
  - intros j' Hj'. destruct (decide (j' = j)) as [->|Hne].
    + destruct (Hpend j (Ret r)) as (d & rem & Hd & He & Hem); [by left|].
      simpl in Hem. subst rem. by rewrite Hd, He, app_nil_r.
    + apply Hrest. intros Hin. apply elem_of_cons in Hin as [?|?]; done.
Qed.

Lemma pool_ghost_finish j (t : Task R) rest w :
  pool_ghost env events tr0 ((j, t) :: rest) w ->
  pool_ghost env events tr0 rest (run_task env t w).2.
Proof.
  revert w. induction t as [r|A a k IH]; intros w Hg; simpl.
  - by eapply pool_ghost_return.
  - apply pool_ghost_advance in Hg.
    destruct (exec env a w) as [x w1]. by apply IH.
Qed.

Lemma running_insert (ws : list (option (nat * Task R))) i o :
  i < length ws ->
  omap id (<[i := o]> ws) ≡ₚ option_list o ++ omap id (<[i := None]> ws).
Proof.
  intros Hi. rewrite !insert_take_drop by done. rewrite !omap_app.
  destruct o as [x|]; simpl; [|done]. symmetry. apply Permutation_middle.
Qed.

Lemma running_lookup_perm (ws : list (option (nat * Task R))) i job :
  ws !! i = Some (Some job) ->
  omap id ws ≡ₚ job :: omap id (<[i := None]> ws).
Proof.
  intros Hi. rewrite <- (list_insert_id ws i (Some job) Hi) at 1.
  apply (running_insert ws i (Some job)). by eapply lookup_lt_Some.
Qed.

Lemma pool_step_ghost (p : Pool R) w i :
  pool_ghost env events tr0 (pending p) w ->
  pool_ghost env events tr0 (pending (pool_step env (p, w) i).1)
    (pool_step env (p, w) i).2.
Proof.
  intros Hg. unfold pool_step.
  destruct (workers p !! i) as [[[j [r|A a k]]|]|] eqn:Hi; simpl; [| | |done].
  - eapply (pool_ghost_return j r).
    eapply pool_ghost_perm; [|exact Hg]. unfold pending, running. simpl.
    by rewrite (running_lookup_perm _ _ _ Hi).
  - assert (Hperm : pending p
                    ≡ₚ (j, Do a k) :: (omap id (<[i := None]> (workers p)) ++ queue p)).
    { unfold pending, running. by rewrite (running_lookup_perm _ _ _ Hi). }
    apply (pool_ghost_perm _ _ _ Hperm) in Hg.
    apply pool_ghost_advance in Hg.
    destruct (exec env a w) as [x w1]. simpl in *.
    eapply pool_ghost_perm; [|exact Hg]. unfold pending, running. simpl.
    rewrite (running_insert _ i (Some (j, k x))) by (by eapply lookup_lt_Some).
    done.
  - destruct (queue p) as [|job rest] eqn:Hq; simpl; [done|].
    eapply pool_ghost_perm; [|exact Hg]. unfold pending, running. simpl.
    rewrite Hq, (running_insert _ i (Some job)) by (by eapply lookup_lt_Some).
    rewrite (list_insert_id _ _ _ Hi). simpl.
    symmetry. apply Permutation_middle.
Qed.

Lemma pool_run_ghost (sched : list nat) (p : Pool R) w :
  pool_ghost env events tr0 (pending p) w ->
  pool_ghost env events tr0 (pending (foldl (pool_step env) (p, w) sched).1)
    (foldl (pool_step env) (p, w) sched).2.
Proof.
  revert p w. induction sched as [|i sched IH]; intros p w Hg; [done|].
  cbn [foldl]. pose proof (pool_step_ghost p w i Hg) as Hg'.
  destruct (pool_step env (p, w) i) as [p' w']. by apply IH.
Qed.

Lemma pool_join_ghost (jobs : list (nat * Task R)) (fs : list (option R)) w :
  pool_ghost env events tr0 jobs w ->
  pool_ghost env events tr0 (@nil (nat * Task R)) (foldl (finish env) (fs, w) jobs).2.
Proof.
  revert fs w. induction jobs as [|[j t] jobs IH]; intros fs w Hg; [done|].
  cbn [foldl finish]. simpl. apply pool_ghost_finish in Hg.
  destruct (run_task env t w) as [r w1]. by apply IH.
Qed.

Lemma pool_ghost_done w :
  pool_ghost env events tr0 (@nil (nat * Task R)) w ->
  ∃ evs, trace w = tr0 ++ evs ∧ interleaving events evs.
Proof.
  intros (_ & dones & evs & Hlen & Htr & Hil & _ & Hrest).
  exists evs. split; [done|].
  assert (dones = events) as <-; [|done].
  apply list_eq. intros j. apply Hrest. apply not_elem_of_nil.
Qed.

Lemma submit_all_ghost (tasks : list (Task R)) (max_workers : nat) w :
  Forall2 (task_emits env) tasks events -> trace w = tr0 ->
  pool_ghost env events tr0 (pending (submit_all tasks max_workers)) w.
Proof.
  intros Hemits Htr.
  assert (Hidle : omap id (replicate max_workers (@None (nat * Task R))) = []).
  { induction max_workers; [done|]. simpl. done. }
  unfold pending, running. simpl. rewrite Hidle. simpl.
  assert (Hfst : ∀ j x, (imap (λ j (t : Task R), (j, t)) tasks).*1 !! j = Some x
                        -> x = j).
  { intros j x. rewrite list_lookup_fmap, list_lookup_imap.
    destruct (tasks !! j); simpl; congruence. }
  split.
  - apply NoDup_alt. intros i j x Hi Hj.
    apply Hfst in Hi, Hj. congruence.
  - exists (replicate (length events) []), []. split_and!.
    + apply length_replicate.
    + by rewrite app_nil_r.
    + constructor. by apply Forall_replicate.
    + intros j t Hin.
      apply elem_of_lookup_imap in Hin as (j' & t' & [= -> ->] & Hl).
      destruct (Forall2_lookup_l _ _ _ _ _ Hemits Hl) as (e & He & Hem).
      exists [], e. split_and!; [|done..].
      apply lookup_replicate_2. by eapply lookup_lt_Some.
    + intros j Hj.
      assert (length tasks <= j) as Hge.
      { destruct (decide (j < length tasks)) as [Hlt|]; [|lia].
        destruct (lookup_lt_is_Some_2 tasks j Hlt) as [t Ht].
        destruct Hj. apply list_elem_of_fmap. exists (j, t). split; [done|].
        by apply (elem_of_lookup_imap_2 (λ j t, (j, t))). }
      rewrite (Forall2_length _ _ _ Hemits) in Hge.
      assert (events !! j = None) as -> by (by apply lookup_ge_None).
      by apply lookup_replicate_None.
Qed.

(** Whatever the schedule, the events of a pool run are a merge of the
    event sequences of the submitted tasks. *)
Lemma executor_map_interleaves (sched : list nat) (max_workers : nat)
    (tasks : list (Task R)) w :
  max_workers ≠ 0 -> Forall2 (task_emits env) tasks events -> trace w = tr0 ->
  ∃ evs, trace (executor_map env sched max_workers tasks w).2 = tr0 ++ evs
         ∧ interleaving events evs.
Proof.
  intros Hn Hemits Htr. unfold executor_map.
  destruct (Nat.eqb_spec max_workers 0) as [?|_]; [done|].
  pose proof (pool_run_ghost sched _ w (submit_all_ghost tasks max_workers w Hemits Htr))
    as Hg.
  destruct (foldl (pool_step env) (submit_all tasks max_workers, w) sched) as [p w1].
  simpl in Hg. unfold pool_join.
  apply (pool_join_ghost _ (futures p)) in Hg.
  unfold pending in Hg.
  destruct (foldl (finish env) (futures p, w1) (running p ++ queue p)) as [fs w2].
  simpl in *. by apply pool_ghost_done.
Qed.

End Ghost.

(** ** What every strategy reads and hashes *)

Section StrategyEvents.
Variable env : Env.

Lemma read_worker_emits (f : Path * Z) :
  task_emits env (read_worker f.1) [EvRead f.1].
Proof. simpl. exists []. done. Qed.

Lemma rust_worker_emits (f : Path * Z) :
  task_emits env (rust_worker f.1) (rust_item_events env f).
Proof.
  unfold rust_item_events, payload. simpl. eexists. split; [reflexivity|].
  intros _. destruct (file_content env f.1) as [[|b data]|]; simpl; [done| |done].
  exists [EvXxh64 (b :: data)]. split; [done|]. intros _.
  exists []. split; [done|]. intros _. exists []. done.
Qed.

Lemma c_worker_emits (f : Path * Z) :
  task_emits env (c_worker f.1) (c_item_events env f).
Proof.
  unfold c_item_events, payload. simpl. eexists. split; [reflexivity|].
  intros _. destruct (file_content env f.1) as [[|b data]|]; simpl; [done| |done].
  exists [EvDigest (b :: data)]. split; [done|]. intros _.
  exists []. split; [done|]. intros _. exists []. done.
Qed.

Lemma pool_events {R} (worker : Path -> Task R)
    (item_events : Path * Z -> list Event) (sched : list nat)
    (files : list (Path * Z)) (n : nat) (w : World) :
  (∀ f, task_emits env (worker f.1) (item_events f)) -> n ≠ 0 ->
  ∃ evs,
    trace (executor_map env sched n ((fun '(f, _) => worker f) <$> files) w).2
      = trace w ++ evs
    ∧ interleaving (item_events <$> files) evs.
Proof.
  intros Hworker Hn.
  apply (executor_map_interleaves env (item_events <$> files) (trace w)); [done| |done].
  induction files as [|[p sz] files IH]; [constructor|].
  rewrite !fmap_cons. constructor; [|exact IH]. apply (Hworker (p, sz)).
Qed.

Lemma python_threading_rust_events (sched : list nat) (files : list (Path * Z))
    (n : nat) (w : World) :
  HAS_RUST env = true -> n ≠ 0 ->
  ∃ evs,
    trace (benchmark_python_threading_rust env sched files n w).2 = trace w ++ evs
    ∧ interleaving (rust_item_events env <$> files) evs.
Proof.
  intros Hrust Hn.
  destruct (pool_events rust_worker (rust_item_events env) sched files n (tick w)
              rust_worker_emits Hn) as (evs & Htr & Hil).
  exists evs. split; [|done].
  unfold benchmark_python_threading_rust. rewrite Hrust. simpl.
  rewrite (bind_run _ _ _ _ _ (perf_counter_run env w)).
  unfold bind at 1.
  destruct (executor_map env sched n _ (tick w)) as [[e|lat] w1] eqn:Hrun;
    simpl in *; done.
Qed.

Lemma c_threading_events (sched : list nat) (files : list (Path * Z))
    (n : nat) (w : World) :
  HAS_XXHASH env = true -> n ≠ 0 ->
  ∃ evs,
    trace (benchmark_c_threading env sched files n w).2 = trace w ++ evs
    ∧ interleaving (c_item_events env <$> files) evs.
Proof.
  intros Hc Hn.
  destruct (pool_events c_worker (c_item_events env) sched files n (tick w)
              c_worker_emits Hn) as (evs & Htr & Hil).
  exists evs. split; [|done].
  unfold benchmark_c_threading. rewrite Hc. simpl.
  rewrite (bind_run _ _ _ _ _ (perf_counter_run env w)).
  unfold bind at 1.
  destruct (executor_map env sched n _ (tick w)) as [[e|lat] w1] eqn:Hrun;
    simpl in *; done.
Qed.

Lemma hybrid_events (sched : list nat) (files : list (Path * Z)) (n : nat)
    (w : World) (batch : list bytes -> list Z) :
  HAS_RUST env = true -> batch_xxh64 env = Some batch -> n ≠ 0 ->
  ∃ reads,
    trace (benchmark_rust_parallel_batch_with_reading env sched files n w).2
      = trace w ++ reads ++ [EvBatch (corpus_payloads env files)]
    ∧ interleaving ((fun f => [EvRead f.1]) <$> files) reads.
Proof.
  intros Hrust Hbatch Hn.
  destruct (pool_events read_worker (fun f => [EvRead f.1]) sched files n (tick w)
              read_worker_emits Hn) as (evs & Htr & Hil).
  destruct (read_pool_run env sched files n (tick w) Hn) as (reads & Hrun & _).
  rewrite Hrun in Htr. simpl in Htr. apply app_inv_head in Htr. subst reads.
  destruct (hybrid_run env sched files n w batch Hrust Hbatch Hn)
    as (reads' & Hrun' & _).
  exists evs. split; [|done]. rewrite Hrun'. simpl.
  (* the reads of [hybrid_run] are those of the pool *)
  unfold benchmark_rust_parallel_batch_with_reading in Hrun'.
  rewrite Hrust, Hbatch in Hrun'.
  rewrite (bind_run _ _ _ _ _ (perf_counter_run env w)) in Hrun'.
  rewrite (bind_run _ _ _ _ _ Hrun) in Hrun'.
  apply (f_equal (fun x => trace x.2)) in Hrun'. simpl in Hrun'.
  unfold bind, print, ret in Hrun'. simpl in Hrun'.
  rewrite uniform_latencies_run in Hrun'. simpl in Hrun'.
  rewrite <- !app_assoc in Hrun'. apply app_inv_head in Hrun'.
  by rewrite <- Hrun'.
Qed.

Lemma reads_of_items (item : Path * Z -> list Event) (files : list (Path * Z)) :
  (∀ f, filter (fun e => is_read e = true) (item f) = [EvRead f.1]) ->
  filter (fun e => is_read e = true) (concat (item <$> files)) = corpus_reads files.
Proof.
  intros Hitem. induction files as [|f files IH]; [done|].
  rewrite fmap_cons. simpl. rewrite filter_app, Hitem, IH. done.
Qed.

Lemma payloads_of_items (item : Path * Z -> list Event) (files : list (Path * Z)) :
  (∀ f, mjoin (payloads_hashed <$> item f)
        = if truthy (payload env f.1) then [payload env f.1] else []) ->
  mjoin (payloads_hashed <$> concat (item <$> files)) = corpus_payloads env files.
Proof.
  intros Hitem. induction files as [|[p sz] files IH]; [done|].
  rewrite fmap_cons. simpl. rewrite fmap_app, join_app, (Hitem (p, sz)), IH.
  by rewrite corpus_payloads_cons.
Qed.

End StrategyEvents.

(** X1. When all four strategies are available, each of them reads every
    file of the corpus exactly once, whatever the schedules of the pools:
    the file reads of a run are a rearrangement of one read per corpus
    file (unreadable and empty files included). *)
Theorem every_strategy_reads_each_file_once (env : Env) (sched : list nat)
    (files : list (Path * Z)) (num_threads : nat) (w : World)
    (batch : list bytes -> list Z) :
  HAS_RUST env = true -> HAS_XXHASH env = true -> batch_xxh64 env = Some batch ->
  num_threads ≠ 0 ->
  (∃ evs,
     trace (benchmark_python_threading_rust env sched files num_threads w).2
       = trace w ++ evs
     ∧ filter (fun e => is_read e = true) evs ≡ₚ corpus_reads files)
  ∧ (∃ evs,
     trace (benchmark_rust_parallel_batch env files w).2 = trace w ++ evs
     ∧ filter (fun e => is_read e = true) evs = corpus_reads files)
  ∧ (∃ evs,
     trace (benchmark_rust_parallel_batch_with_reading env sched files
              num_threads w).2 = trace w ++ evs
     ∧ filter (fun e => is_read e = true) evs ≡ₚ corpus_reads files)
  ∧ (∃ evs,
     trace (benchmark_c_threading env sched files num_threads w).2
       = trace w ++ evs
     ∧ filter (fun e => is_read e = true) evs ≡ₚ corpus_reads files).
Proof.
  intros Hrust Hc Hbatch Hn. split_and!.
  - destruct (python_threading_rust_events env sched files num_threads w Hrust Hn)
      as (evs & Htr & Hil).
    exists evs. split; [done|].
    rewrite (interleaving_perm _ _ Hil). rewrite reads_of_items; [done|].
    intros f. unfold rust_item_events. simpl. by destruct (truthy _).
  - rewrite (rust_parallel_batch_run env files w batch Hrust Hbatch). simpl.
    eexists. split; [reflexivity|].
    rewrite filter_app. simpl.
    assert (Hall : filter (fun e => is_read e = true) (corpus_reads files)
                   = corpus_reads files).
    { unfold corpus_reads. induction files as [|f fs IH]; [done|].
      rewrite fmap_cons, filter_cons. simpl. by rewrite IH. }
    unfold corpus_reads in *. rewrite Hall. by rewrite app_nil_r.
  - destruct (hybrid_events env sched files num_threads w batch Hrust Hbatch Hn)
      as (reads & Htr & Hil).
    eexists. split; [exact Htr|].
    rewrite filter_app. simpl. rewrite app_nil_r.
    rewrite (interleaving_perm _ _ Hil). by rewrite reads_of_items.
  - destruct (c_threading_events env sched files num_threads w Hc Hn)
      as (evs & Htr & Hil).
    exists evs. split; [done|].
    rewrite (interleaving_perm _ _ Hil). rewrite reads_of_items; [done|].
    intros f. unfold c_item_events. simpl. by destruct (truthy _).
Qed.

Lemma every_strategy_reads_each_file_once_witness :
  ∃ evs,
    trace (benchmark_c_threading env_demo [1; 0; 1; 1; 0] demo_files 2 world0).2
      = evs
    ∧ filter (fun e => is_read e = true) evs ≡ₚ corpus_reads demo_files.
Proof.
  assert (Hn : 2 ≠ 0) by (intros H; discriminate H).
  destruct (every_strategy_reads_each_file_once env_demo [1; 0; 1; 1; 0]
              demo_files 2 world0 _ eq_refl eq_refl eq_refl Hn)
    as (_ & _ & _ & evs & Htr & Hperm).
  exists evs. split; [exact Htr | exact Hperm].
Defined.

(** X2. When all four strategies are available, each of them hashes the
    same payloads, each once: the non-empty payloads of the corpus.  The
    batch strategies hand them to the batch primitive in corpus order; the
    per-item strategies hash them in an order that depends on the schedule.
    Empty payloads are never hashed. *)
Theorem every_strategy_hashes_the_same_payloads (env : Env) (sched : list nat)
    (files : list (Path * Z)) (num_threads : nat) (w : World)
    (batch : list bytes -> list Z) :
  HAS_RUST env = true -> HAS_XXHASH env = true -> batch_xxh64 env = Some batch ->
  num_threads ≠ 0 ->
  (∃ evs,
     trace (benchmark_python_threading_rust env sched files num_threads w).2
       = trace w ++ evs
     ∧ mjoin (payloads_hashed <$> evs) ≡ₚ corpus_payloads env files)
  ∧ (∃ evs,
     trace (benchmark_rust_parallel_batch env files w).2 = trace w ++ evs
     ∧ mjoin (payloads_hashed <$> evs) = corpus_payloads env files)
  ∧ (∃ evs,
     trace (benchmark_rust_parallel_batch_with_reading env sched files
              num_threads w).2 = trace w ++ evs
     ∧ mjoin (payloads_hashed <$> evs) = corpus_payloads env files)
  ∧ (∃ evs,
     trace (benchmark_c_threading env sched files num_threads w).2
       = trace w ++ evs
     ∧ mjoin (payloads_hashed <$> evs) ≡ₚ corpus_payloads env files).
Proof.
  intros Hrust Hc Hbatch Hn.
  assert (Hreads : ∀ reads, Forall (fun e => is_read e = true) reads ->
                            mjoin (payloads_hashed <$> reads) = []).
  { induction 1 as [|[] reads He _ IH]; try done. }
  split_and!.
  - destruct (python_threading_rust_events env sched files num_threads w Hrust Hn)
      as (evs & Htr & Hil).
    exists evs. split; [done|].
    rewrite (interleaving_perm _ _ Hil). rewrite (payloads_of_items env); [done|].
    intros f. unfold rust_item_events. simpl. by destruct (truthy _).
  - rewrite (rust_parallel_batch_run env files w batch Hrust Hbatch). simpl.
    eexists. split; [reflexivity|].
    rewrite fmap_app, join_app. simpl. rewrite app_nil_r.
    rewrite Hreads; [done|]. apply Forall_fmap. by apply Forall_true.
  - destruct (hybrid_run env sched files num_threads w batch Hrust Hbatch Hn)
      as (reads & Hrun & Hall).
    rewrite Hrun. simpl. eexists. split; [reflexivity|].
    rewrite fmap_app, join_app. simpl. rewrite app_nil_r.
    by rewrite Hreads.
  - destruct (c_threading_events env sched files num_threads w Hc Hn)
      as (evs & Htr & Hil).
    exists evs. split; [done|].
    rewrite (interleaving_perm _ _ Hil). rewrite (payloads_of_items env); [done|].
    intros f. unfold c_item_events. simpl. by destruct (truthy _).
Qed.

Lemma every_strategy_hashes_the_same_payloads_witness :
  ∃ evs,
    trace (benchmark_python_threading_rust env_demo [1; 0; 1; 1; 0] demo_files 2
             world0).2 = evs
    ∧ mjoin (payloads_hashed <$> evs) ≡ₚ [one_byte; one_byte].
Proof.
  assert (Hn : 2 ≠ 0) by (intros H; discriminate H).
  destruct (every_strategy_hashes_the_same_payloads env_demo [1; 0; 1; 1; 0]
              demo_files 2 world0 _ eq_refl eq_refl eq_refl Hn)
    as ((evs & Htr & Hperm) & _).
  exists evs. split; [exact Htr | exact Hperm].
Defined.

(** X3. In a per-item strategy, whatever the schedule, the hashing call for
    an item comes after the read of that item's file: for every corpus file
    with a non-empty payload, its read and then its hash occur in this
    order among the events of the run. *)
Theorem per_item_hash_follows_own_read (env : Env) (sched : list nat)
    (files : list (Path * Z)) (num_threads : nat) (w : World) :
  num_threads ≠ 0 ->
  (HAS_RUST env = true ->
   ∃ evs,
     trace (benchmark_python_threading_rust env sched files num_threads w).2
       = trace w ++ evs
     ∧ ∀ f, f ∈ files -> payload env f.1 ≠ [] ->
         sublist [EvRead f.1; EvXxh64 (payload env f.1)] evs)
  ∧ (HAS_XXHASH env = true ->
   ∃ evs,
     trace (benchmark_c_threading env sched files num_threads w).2
       = trace w ++ evs
     ∧ ∀ f, f ∈ files -> payload env f.1 ≠ [] ->
         sublist [EvRead f.1; EvDigest (payload env f.1)] evs).
Proof.
  intros Hn. split.
  - intros Hrust.
    destruct (python_threading_rust_events env sched files num_threads w Hrust Hn)
      as (evs & Htr & Hil).
    exists evs. split; [done|]. intros f Hf Hne.
    apply list_elem_of_lookup_1 in Hf as [j Hj].
    apply (interleaving_sublist _ _ j _ Hil).
    rewrite list_lookup_fmap, Hj. simpl. unfold rust_item_events.
    by destruct (payload env f.1).
  - intros Hc.
    destruct (c_threading_events env sched files num_threads w Hc Hn)
      as (evs & Htr & Hil).
    exists evs. split; [done|]. intros f Hf Hne.
    apply list_elem_of_lookup_1 in Hf as [j Hj].
    apply (interleaving_sublist _ _ j _ Hil).
    rewrite list_lookup_fmap, Hj. simpl. unfold c_item_events.
    by destruct (payload env f.1).
Qed.

Lemma per_item_hash_follows_own_read_witness :
  ∃ evs,
    trace (benchmark_python_threading_rust env_demo [1; 0; 1; 1; 0] demo_files 2
             world0).2 = evs
    ∧ sublist [EvRead "d/c"; EvXxh64 one_byte] evs.
Proof.
  assert (Hn : 2 ≠ 0) by (intros H; discriminate H).
  destruct (per_item_hash_follows_own_read env_demo [1; 0; 1; 1; 0] demo_files 2
              world0 Hn) as [Hrust _].
  destruct (Hrust eq_refl) as (evs & Htr & Horder).
  exists evs. split; [exact Htr|].
  apply (Horder ("d/c", 100%Z)).
  - apply list_elem_of_In. right. left. reflexivity.
  - intros H. discriminate H.
Defined.

(** ** More on the corpus sampler *)

Lemma elem_of_walk_files (env : Env) (directory : Path) (p : Path) (sz : Z) :
  (p, sz) ∈ walk_files env directory
  ↔ ∃ root filenames filename,
      (root, filenames) ∈ os_walk env directory ∧ filename ∈ filenames
      ∧ p = path_join root filename ∧ st_size env p = Some sz.
Proof.
  unfold walk_files. rewrite list_elem_of_In, in_flat_map. split.
  - intros ([root filenames] & Hroot & Hin).
    apply list_elem_of_In, list_elem_of_omap in Hin as (filename & Hf & Hstat).
    destruct (st_size env (path_join root filename)) as [sz'|] eqn:Hsz; [|done].
    injection Hstat as <- <-.
    exists root, filenames, filename. by rewrite list_elem_of_In.
  - intros (root & filenames & filename & Hroot & Hf & -> & Hsz).
    exists (root, filenames). split; [by apply list_elem_of_In|].
    apply list_elem_of_In, list_elem_of_omap. exists filename.
    split; [done|]. by rewrite Hsz.
Qed.

Lemma slice_to_subseteq {A} (l : list A) (stop : Z) : slice_to l stop ⊆ l.
Proof. unfold slice_to. destruct (0 <=? stop)%Z; apply subseteq_take. Qed.

(** X4. Every entry of the sampled corpus is a file the walk yields,
    paired with the size [stat] reports for it; files whose [stat] fails
    are left out.  When [max_files] is at least the number of files that
    could be stat'ed, none of those is missing from the corpus. *)
Theorem get_files_lists_stat_able_files (env : Env) (directory : Path)
    (max_files : Z) :
  (∀ p sz, (p, sz) ∈ get_files env directory max_files ->
     st_size env p = Some sz
     ∧ ∃ root filenames filename,
         (root, filenames) ∈ os_walk env directory ∧ filename ∈ filenames
         ∧ p = path_join root filename)
  ∧ ((Z.of_nat (length (walk_files env directory)) <= max_files)%Z ->
     ∀ root filenames filename sz,
       (root, filenames) ∈ os_walk env directory -> filename ∈ filenames ->
       st_size env (path_join root filename) = Some sz ->
       (path_join root filename, sz) ∈ get_files env directory max_files).
Proof.
  split.
  - intros p sz Hin. apply slice_to_subseteq in Hin.
    rewrite sort_by_size_perm in Hin.
    apply elem_of_walk_files in Hin as (root & fs & f & ? & ? & ? & ?).
    split; [done|]. by exists root, fs, f.
  - intros Hall root filenames filename sz Hroot Hf Hsz.
    unfold get_files, slice_to.
    destruct (Z.leb_spec 0 max_files) as [_|?]; [|lia].
    rewrite take_ge.
    + rewrite sort_by_size_perm. apply elem_of_walk_files.
      by exists root, filenames, filename.
    + rewrite (Permutation_length (sort_by_size_perm _)). lia.
Qed.

Lemma get_files_lists_stat_able_files_witness :
  ("d/c", 100%Z) ∈ get_files env_demo "d" 1000.
Proof.
  assert (Hall : (Z.of_nat (length (walk_files env_demo "d")) <= 1000)%Z)
    by (intros H; discriminate H).
  apply (proj2 (get_files_lists_stat_able_files env_demo "d" 1000) Hall
           "d" ["a"; "b"; "c"; "z"] "c" 100%Z).
  - apply list_elem_of_In. left. reflexivity.
  - apply list_elem_of_In. do 2 right. left. reflexivity.
  - reflexivity.
Defined.

(** X5. Truncation keeps the smallest files: for a bound [max_files >= 0],
    every file that could be stat'ed but is not in the corpus is at least
    as large as every file in the corpus. *)
Theorem get_files_keeps_smallest (env : Env) (directory : Path) (max_files : Z)
    (x y : Path * Z) :
  (0 <= max_files)%Z ->
  x ∈ get_files env directory max_files ->
  y ∈ walk_files env directory ->
  y ∉ get_files env directory max_files ->
  (x.2 <= y.2)%Z.
Proof.
  intros Hbound Hx Hy Hny. unfold get_files, slice_to in *.
  destruct (Z.leb_spec 0 max_files) as [_|?]; [|lia].
  pose proof (sort_by_size_strongly_sorted (walk_files env directory)) as Hs.
  rewrite <- (take_drop (Z.to_nat max_files)) in Hs.
  apply StronglySorted_app in Hs as (Hle & _ & _).
  apply (Hle x y Hx).
  rewrite <- sort_by_size_perm in Hy.
  rewrite <- (take_drop (Z.to_nat max_files) (sort_by_size _)) in Hy.
  apply elem_of_app in Hy as [?|?]; done.
Qed.

Lemma get_files_keeps_smallest_witness : (10 <= 1000)%Z.
Proof.
  assert (Hbound : (0 <= 1)%Z) by (intros H; discriminate H).
  apply (get_files_keeps_smallest env_demo "d" 1 ("d/a", 10%Z) ("d/b", 1000%Z) Hbound).
  - apply list_elem_of_In. left. reflexivity.
  - apply list_elem_of_In. right. left. reflexivity.
  - intros Hin. apply list_elem_of_In in Hin. destruct Hin as [H|[]].
    discriminate H.
Defined.

(** X6. A larger bound only appends: for [0 <= m <= m'] the corpus sampled
    with bound [m] is a prefix of the corpus sampled with bound [m']. *)
Theorem get_files_prefix_monotone (env : Env) (directory : Path) (m m' : Z) :
  (0 <= m <= m')%Z ->
  get_files env directory m `prefix_of` get_files env directory m'.
Proof.
  intros [H0 Hle]. unfold get_files, slice_to.
  destruct (Z.leb_spec 0 m) as [_|?]; [|lia].
  destruct (Z.leb_spec 0 m') as [_|?]; [|lia].
  replace (Z.to_nat m) with (Z.to_nat m `min` Z.to_nat m') by lia.
  rewrite <- take_take. apply prefix_take.
Qed.

Lemma get_files_prefix_monotone_witness :
  get_files env_demo "d" 1 `prefix_of` get_files env_demo "d" 2.
Proof.
  assert (H : (0 <= 1 <= 2)%Z) by (split; intros H; discriminate H).
  exact (get_files_prefix_monotone env_demo "d" 1 2 H).
Defined.

(** X7. Files of equal size keep the order of the walk: for a bound
    [max_files >= 0] and every size, the corpus files of that size are the
    first ones, in walk order, among the stat-able files of that size. *)
Theorem get_files_keeps_walk_order_of_ties (env : Env) (directory : Path)
    (max_files : Z) (size : Z) :
  (0 <= max_files)%Z ->
  filter (fun f => f.2 = size) (get_files env directory max_files)
    `prefix_of` filter (fun f => f.2 = size) (walk_files env directory).
Proof.
  intros Hbound. unfold get_files, slice_to.
  destruct (Z.leb_spec 0 max_files) as [_|?]; [|lia].
  rewrite <- (sort_by_size_stable size (walk_files env directory)).
  rewrite <- (take_drop (Z.to_nat max_files) (sort_by_size _)) at 2.
  rewrite filter_app. by eexists.
Qed.

Lemma get_files_keeps_walk_order_of_ties_witness :
  filter (fun f => f.2 = 100%Z) (get_files env_demo "d" 5)
    `prefix_of` filter (fun f => f.2 = 100%Z) (walk_files env_demo "d").
Proof.
  assert (Hbound : (0 <= 5)%Z) by (intros H; discriminate H).
  exact (get_files_keeps_walk_order_of_ties env_demo "d" 5 100 Hbound).
Defined.

Lemma get_files_negative_slice_witness :
  get_files env_demo "d" (-1) = [("d/a", 10%Z); ("d/c", 100%Z)].
Proof.
  assert (Hneg : (-1 < 0)%Z) by reflexivity.
  rewrite (get_files_negative_slice env_demo "d" (-1) Hneg). reflexivity.
Defined.

(** ** More on main and on what the strategies raise *)

(** X9. Configuration errors: without a directory argument [main] prints
    the usage line and exits with status 1; with an argument that names no
    existing directory it prints the error line and exits with status 1.
    In both cases nothing else is printed, read or hashed. *)
Theorem main_configuration_errors (env : Env) (scheds : Schedules)
    (argv : list string) (w : World) :
  (length argv < 2 ->
   main env scheds argv w
   = (inl (SystemExit 1),
      put_line (Text "Usage: python benchmark_hybrid_parallelism.py <directory>") w))
  ∧ (2 <= length argv -> path_exists env (nth 1 argv "") = false ->
     main env scheds argv w
     = (inl (SystemExit 1),
        put_line (Text ("Error: Directory does not exist: " +:+ nth 1 argv "")) w)).
Proof.
  split.
  - intros Hlen. unfold main.
    destruct (Nat.ltb_spec (length argv) 2) as [_|?]; [|lia].
    by main_print.
  - intros Hlen Hdir. unfold main.
    destruct (Nat.ltb_spec (length argv) 2) as [?|_]; [lia|].
    rewrite Hdir. cbv beta iota zeta. cbn [negb]. by main_print.
Qed.

Lemma main_configuration_errors_witness :
  exit_code (main env_demo demo_schedules ["benchmark"] world0).1 = 1%Z
  ∧ exit_code (main env_demo demo_schedules ["benchmark"; "nowhere"] world0).1 = 1%Z.
Proof.
  destruct (main_configuration_errors env_demo demo_schedules ["benchmark"] world0)
    as [Husage _].
  destruct (main_configuration_errors env_demo demo_schedules
              ["benchmark"; "nowhere"] world0) as [_ Hdir].
  rewrite (Husage (le_n 2)), (Hdir (le_n 2) eq_refl). split; reflexivity.
Defined.

(** X10. On an existing directory in which no file can be stat'ed, [main]
    raises [ZeroDivisionError] when it prints the average file size (line
    176), so the process status is 1.  This happens before the check for
    the two libraries and before any strategy: nothing is read or hashed
    and the clock is not read. *)
Theorem main_empty_corpus_raises (env : Env) (scheds : Schedules)
    (argv : list string) (w : World) :
  2 <= length argv ->
  path_exists env (nth 1 argv "") = true ->
  get_files env (nth 1 argv "") 1000 = [] ->
  ∃ w', main env scheds argv w = (inl ZeroDivisionError, w')
        ∧ exit_code (main env scheds argv w).1 = 1%Z
        ∧ trace w' = trace w ∧ ticks w' = ticks w
        ∧ stdout w' = stdout w ++ [Text ("Scanning directory: " +:+ nth 1 argv "");
                                   Count "Found files" 0;
                                   Value "Total size" (0 / 1e6)%Q].
Proof.
  intros Hlen Hdir Hfiles. unfold main.
  destruct (Nat.ltb_spec (length argv) 2) as [?|_]; [lia|].
  rewrite Hdir, Hfiles. cbv beta iota zeta. cbn [negb].
  do 2 main_print. main_div. main_print.
  erewrite bind_raise by (apply py_div_zero; reflexivity).
  eexists. split; [reflexivity|]. split_and!; try reflexivity.
  simpl. by rewrite <- !app_assoc.
Qed.

Lemma main_empty_corpus_raises_witness :
  ∃ w', main env_empty_dir demo_schedules ["benchmark"; "e"] world0
        = (inl ZeroDivisionError, w').
Proof.
  destruct (main_empty_corpus_raises env_empty_dir demo_schedules
              ["benchmark"; "e"] world0 (le_n 2) eq_refl eq_refl)
    as (w' & Hrun & _).
  by exists w'.
Defined.



(** ** More on the figures of the report *)

Lemma foldl_Qplus (a : Q) (l : list Q) : (foldl Qplus a l == a + sumQ l)%Q.
Proof.
  unfold sumQ. revert a. induction l as [|x l IH]; intros a; simpl.
  - ring.
  - rewrite (IH (a + x)%Q), (IH (0 + x)%Q). ring.
Qed.

Lemma sumQ_replicate (n : nat) (x : Q) :
  (sumQ (replicate n x) == inject_Z (Z.of_nat n) * x)%Q.
Proof.
  induction n as [|n IH].
  - unfold sumQ. simpl. ring.
  - unfold sumQ. cbn [replicate foldl]. rewrite foldl_Qplus, IH.
    rewrite Nat2Z.inj_succ. unfold Z.succ. rewrite inject_Z_plus. ring.
Qed.

(** X12. The average latency that the report prints for a batch strategy
    is the uniform value itself: for a non-empty list of digests, the mean
    of the latency list built at lines 100 and 131 equals the elapsed
    compute time, in microseconds, divided by the number of digests. *)
Theorem batch_average_latency (process_time : Q) (results : list Z) (w : World) :
  results ≠ [] ->
  ∃ avg,
    print_avg_latency (uniform process_time results) w
      = (inr tt, put_line (Value "Avg latency" avg) w)
    ∧ (avg == process_time * 1e6 / inject_Z (Z.of_nat (length results)))%Q.
Proof.
  intros Hres. rewrite (uniform_nonempty _ _ Hres).
  destruct results as [|z rs]; [done|]. clear Hres.
  set (n := length (z :: rs)).
  set (x := (process_time * 1e6 / inject_Z (Z.of_nat n))%Q).
  unfold print_avg_latency. cbn [replicate length truthy n].
  rewrite length_replicate.
  rewrite (bind_run _ _ _ _ _ (py_div_run _ _ w (nonzero_count _))).
  eexists. split; [reflexivity|].
  change (x :: replicate (length rs) x) with (replicate n x).
  rewrite sumQ_replicate. change (S (length rs)) with n.
  assert (Hn : ¬ (inject_Z (Z.of_nat n) == 0)%Q).
  { apply Qeq_bool_false. exact (nonzero_count (length rs)). }
  clearbody x. revert Hn. generalize (inject_Z (Z.of_nat n)). intros q Hq.
  field. exact Hq.
Qed.

Lemma batch_average_latency_witness :
  ∃ avg,
    print_avg_latency (uniform 1 [7%Z; 7%Z]) world0
      = (inr tt, put_line (Value "Avg latency" avg) world0)
    ∧ (avg == 1 * 1e6 / inject_Z 2)%Q.
Proof.
  assert (Hres : [7%Z; 7%Z] ≠ []) by (intros H; discriminate H).
  exact (batch_average_latency 1 [7%Z; 7%Z] world0 Hres).
Defined.

Lemma py_min_step (m y : Q) :
  let m' := if Qle_bool m y then m else y in
  (m' <= m)%Q ∧ (m' <= y)%Q ∧ (m' = m ∨ m' = y).
Proof.
  simpl. destruct (Qle_bool m y) eqn:E.
  - apply Qle_bool_iff in E. split_and!; [apply Qle_refl | done | by left].
  - assert (y < m)%Q as Hlt.
    { apply Qnot_le_lt. intros H. apply Qle_bool_iff in H. congruence. }
    split_and!; [by apply Qlt_le_weak | apply Qle_refl | by right].
Qed.

Lemma py_min_spec (x a b c : Q) :
  let m := py_min x [a; b; c] in
  (m <= x)%Q ∧ (m <= a)%Q ∧ (m <= b)%Q ∧ (m <= c)%Q
  ∧ (m = x ∨ m = a ∨ m = b ∨ m = c).
Proof.
  unfold py_min. cbn [foldl].
  destruct (py_min_step x a) as (H1 & H2 & H3).
  set (m1 := if Qle_bool x a then x else a) in *.
  destruct (py_min_step m1 b) as (H4 & H5 & H6).
  set (m2 := if Qle_bool m1 b then m1 else b) in *.
  destruct (py_min_step m2 c) as (H7 & H8 & H9).
  set (m3 := if Qle_bool m2 c then m2 else c) in *.
  cbv zeta. split_and!.
  - eapply Qle_trans; [exact H7|]. eapply Qle_trans; [exact H4|]. exact H1.
  - eapply Qle_trans; [exact H7|]. eapply Qle_trans; [exact H4|]. exact H2.
  - eapply Qle_trans; [exact H7|]. exact H5.
  - exact H8.
  - destruct H9 as [->| ->]; [|tauto].
    destruct H6 as [->| ->]; [|tauto].
    destruct H3 as [->| ->]; tauto.
Qed.

Ltac main_to_verdict env :=
  unfold main;
  match goal with
  | |- context [(length ?l <? 2)%nat] =>
      destruct (Nat.ltb_spec (length l) 2) as [?|_]; [main_print; main_fails|]
  end;
  match goal with
  | |- context [path_exists env ?d] =>
      destruct (path_exists env d); cbn [negb]; [|main_print; main_fails]
  end;
  cbv beta iota zeta;
  let f := fresh "f" in
  let files := fresh "files" in
  let Hf := fresh "Hfiles" in
  match goal with
  | |- context [get_files env ?d 1000] =>
      destruct (get_files env d 1000) as [|f files] eqn:Hf
  end;
  [ do 2 main_print; main_div; main_print;
    erewrite bind_raise by (apply py_div_zero; reflexivity); main_fails |];
  do 2 main_print; main_div; main_print; main_div; main_div; do 3 main_print;
  let Hrayon := fresh "Hrayon" in
  assert (Hrayon : ∀ w0, ∃ w1,
             (if HAS_RUST env
              then match rayon_threads env (cpu_count env) with
                   | Some n => print (Count "Rayon threads configured" n)
                   | None => ret tt
                   end
              else ret tt) w0 = (inr tt, w1)
             ∧ trace w1 = trace w0 ∧ ticks w1 = ticks w0)
    by (intros ?; destruct (HAS_RUST env); [destruct (rayon_threads _ _)|];
        by eexists);
  match goal with
  | |- context [bind _ _ ?w0] =>
      let w1 := fresh "w" in
      let Hw1 := fresh "Hw" in
      let Htr := fresh "Hprelude" in
      destruct (Hrayon w0) as (w1 & Hw1 & Htr); main_call Hw1; clear Hrayon Hw1
  end;
  main_print.

Ltac main_benchmarks env :=
  main_to_verdict env;
  destruct (negb (HAS_RUST env) || negb (HAS_XXHASH env)) eqn:?;
    [main_print; main_fails|];
  do 4 main_print;
  (let t := fresh "python_time" in let l := fresh "python_latencies" in
   main_benchmark t l);
  main_print; main_avg_latency env; main_throughput; do 2 main_print;
  (let t := fresh "rust_time" in let l := fresh "rust_latencies" in
   main_benchmark t l);
  main_print; main_avg_latency env; main_throughput; do 2 main_print;
  (let t := fresh "hybrid_time" in let l := fresh "hybrid_latencies" in
   main_benchmark t l);
  main_print; main_avg_latency env; main_throughput; do 2 main_print;
  (let t := fresh "c_time" in let l := fresh "c_latencies" in
   main_benchmark t l);
  main_print; main_avg_latency env; main_throughput; do 6 main_print;
  main_throughput; main_print;
  main_throughput; main_div; main_print;
  main_throughput; main_div; main_print;
  main_throughput; main_div; do 2 main_print.

Ltac verdict_case :=
  first [ left; split_and!;
          first [ reflexivity | by apply Qeq_bool_iff | by apply Qeq_bool_neq ]
        | right; verdict_case ].

(** X13. The verdict names a fastest strategy.  Whenever [main] finishes,
    its last line names a strategy and shows the smallest of the four
    times the strategies returned; the strategy named has that time, and
    ties are decided in the order hybrid, Python threads with Rust, Python
    threads with C, Rust batch. *)
Theorem main_verdict_names_a_fastest_strategy (env : Env) (scheds : Schedules)
    (argv : list string) (w w' : World) :
  main env scheds argv w = (inr tt, w') ->
  let files := get_files env (nth 1 argv "") 1000 in
  ∃ (python_time rust_time hybrid_time c_time : Q) (label : string) (best : Q),
    (∃ latencies w1 w2,
       benchmark_python_threading_rust env (sched_python scheds) files
         (cpu_count env) w1 = (inr (python_time, latencies), w2))
    ∧ (∃ latencies w1 w2,
       benchmark_rust_parallel_batch env files w1
         = (inr (rust_time, latencies), w2))
    ∧ (∃ latencies w1 w2,
       benchmark_rust_parallel_batch_with_reading env (sched_hybrid scheds)
         files (cpu_count env) w1 = (inr (hybrid_time, latencies), w2))
    ∧ (∃ latencies w1 w2,
       benchmark_c_threading env (sched_c scheds) files (cpu_count env) w1
         = (inr (c_time, latencies), w2))
    ∧ last (stdout w') = Some (Value label best)
    ∧ (best <= python_time)%Q ∧ (best <= rust_time)%Q
    ∧ (best <= hybrid_time)%Q ∧ (best <= c_time)%Q
    ∧ ((label = "Hybrid approach (Py I/O + Rust Rayon) is best at"
        ∧ (hybrid_time == best)%Q)
       ∨ (label = "Python threading + Rust is best at"
          ∧ (python_time == best)%Q ∧ ¬ (hybrid_time == best)%Q)
       ∨ (label = "Python threading + C is best at"
          ∧ (c_time == best)%Q ∧ ¬ (hybrid_time == best)%Q
          ∧ ¬ (python_time == best)%Q)
       ∨ (label = "Rust Rayon batch is best at"
          ∧ (rust_time == best)%Q ∧ ¬ (hybrid_time == best)%Q
          ∧ ¬ (python_time == best)%Q ∧ ¬ (c_time == best)%Q)).
Proof.
  main_benchmarks env.
  intros Hdone.
  destruct (py_min_spec python_time rust_time hybrid_time c_time)
    as (Hp & Hr & Hh & Hc & Hcases).
  set (best := py_min python_time [rust_time; hybrid_time; c_time]) in *.
  destruct (Qeq_bool hybrid_time best) eqn:Ehybrid;
    [|destruct (Qeq_bool python_time best) eqn:Epython;
      [|destruct (Qeq_bool c_time best) eqn:Ec]];
    injection Hdone as <-;
    exists python_time, rust_time, hybrid_time, c_time; eexists _, best;
    (split_and!; [by eauto..| cbn [stdout put_line]; apply last_snoc
                 | done | done | done | done |]).
  - verdict_case.
  - verdict_case.
  - verdict_case.
  - do 3 right. split_and!; [reflexivity| |by apply Qeq_bool_neq..].
    destruct Hcases as [E|[E|[E|E]]]; rewrite E in *.
    + by rewrite Qeq_bool_refl in Epython.
    + reflexivity.
    + by rewrite Qeq_bool_refl in Ehybrid.
    + by rewrite Qeq_bool_refl in Ec.
Qed.

Lemma main_verdict_names_a_fastest_strategy_witness :
  ∃ w', main env_demo demo_schedules ["benchmark"; "d"] world0 = (inr tt, w')
        ∧ ∃ label best, last (stdout w') = Some (Value label best).
Proof.
  exists (main env_demo demo_schedules ["benchmark"; "d"] world0).2.
  assert (Hrun : main env_demo demo_schedules ["benchmark"; "d"] world0
                 = (inr tt, (main env_demo demo_schedules ["benchmark"; "d"] world0).2)).
  { vm_compute. reflexivity. }
  split; [exact Hrun|].
  destruct (main_verdict_names_a_fastest_strategy env_demo demo_schedules
              ["benchmark"; "d"] world0 _ Hrun)
    as (_ & _ & _ & _ & label & best & _ & _ & _ & _ & Hlast & _).
  by exists label, best.
Defined.

(** ** What a finished comparison has read and hashed *)

Section RunSummaries.
Variable env : Env.

Lemma reads_hash_nothing (reads : list Event) :
  Forall (fun e => is_read e = true) reads ->
  mjoin (payloads_hashed <$> reads) = []
  ∧ filter (fun e => is_read e = true) reads = reads.
Proof.
  induction 1 as [|[] reads He _ [IH1 IH2]]; try done.
  split; [done|]. rewrite filter_cons. simpl. by rewrite IH2.
Qed.

Lemma python_threading_rust_summary sched files n w :
  HAS_RUST env = true -> n ≠ 0 ->
  run_summary env files w (benchmark_python_threading_rust env sched files n w).2.
Proof.
  intros Hrust Hn.
  destruct (python_threading_rust_events env sched files n w Hrust Hn)
    as (evs & Htr & Hil).
  exists evs. split; [done|]. rewrite !(interleaving_perm _ _ Hil). split.
  - rewrite reads_of_items; [done|].
    intros f. unfold rust_item_events. simpl. by destruct (truthy _).
  - rewrite (payloads_of_items env); [done|].
    intros f. unfold rust_item_events. simpl. by destruct (truthy _).
Qed.

Lemma c_threading_summary sched files n w :
  HAS_XXHASH env = true -> n ≠ 0 ->
  run_summary env files w (benchmark_c_threading env sched files n w).2.
Proof.
  intros Hc Hn.
  destruct (c_threading_events env sched files n w Hc Hn) as (evs & Htr & Hil).
  exists evs. split; [done|]. rewrite !(interleaving_perm _ _ Hil). split.
  - rewrite reads_of_items; [done|].
    intros f. unfold c_item_events. simpl. by destruct (truthy _).
  - rewrite (payloads_of_items env); [done|].
    intros f. unfold c_item_events. simpl. by destruct (truthy _).
Qed.

Lemma rust_parallel_batch_summary files w batch :
  HAS_RUST env = true -> batch_xxh64 env = Some batch ->
  run_summary env files w (benchmark_rust_parallel_batch env files w).2.
Proof.
  intros Hrust Hbatch.
  rewrite (rust_parallel_batch_run env files w batch Hrust Hbatch). simpl.
  eexists. split; [reflexivity|].
  assert (Hall : Forall (fun e => is_read e = true) ((fun f => EvRead f.1) <$> files)).
  { apply Forall_fmap. by apply Forall_true. }
  destruct (reads_hash_nothing _ Hall) as [Hnone Hreads].
  rewrite filter_app, fmap_app, join_app, Hnone, Hreads. simpl.
  by rewrite !app_nil_r.
Qed.

Lemma hybrid_summary sched files n w batch :
  HAS_RUST env = true -> batch_xxh64 env = Some batch -> n ≠ 0 ->
  run_summary env files w
    (benchmark_rust_parallel_batch_with_reading env sched files n w).2.
Proof.
  intros Hrust Hbatch Hn.
  destruct (hybrid_events env sched files n w batch Hrust Hbatch Hn)
    as (reads & Htr & Hil).
  eexists. split; [exact Htr|].
  pose proof (interleaving_perm _ _ Hil) as Hperm.
  assert (Hall : Forall (fun e => is_read e = true) reads).
  { rewrite Hperm. apply Forall_concat, Forall_fmap, Forall_true.
    intros f. by repeat constructor. }
  destruct (reads_hash_nothing _ Hall) as [Hnone Hreads].
  rewrite filter_app, fmap_app, join_app, Hnone, Hreads. simpl.
  rewrite !app_nil_r. split; [|done].
  rewrite Hperm. rewrite <- (reads_of_items (fun f => [EvRead f.1])); [|done].
  symmetry. apply reflexive_eq.
  assert (Hc : Forall (fun e => is_read e = true)
                 (concat ((fun f : Path * Z => [EvRead f.1]) <$> files))).
  { apply Forall_concat, Forall_fmap, Forall_true. intros f. by repeat constructor. }
  apply (reads_hash_nothing _ Hc).
Qed.

End RunSummaries.

Ltac main_avg_latency_trace :=
  match goal with
  | |- context [bind (print_avg_latency ?l) _ ?w] =>
      let H := fresh "Havg" in
      let Htr := fresh "Havgtr" in
      let w1 := fresh "w" in
      destruct (print_avg_latency_run l w) as (w1 & H & _ & Htr); main_call H;
      cbn [trace put_line] in Htr
  end.

Ltac main_benchmarks_trace env :=
  main_to_verdict env;
  destruct (negb (HAS_RUST env) || negb (HAS_XXHASH env)) eqn:?;
    [main_print; main_fails|];
  do 4 main_print;
  (let t := fresh "python_time" in let l := fresh "python_latencies" in
   main_benchmark t l);
  main_print; main_avg_latency_trace; main_throughput; do 2 main_print;
  (let t := fresh "rust_time" in let l := fresh "rust_latencies" in
   main_benchmark t l);
  main_print; main_avg_latency_trace; main_throughput; do 2 main_print;
  (let t := fresh "hybrid_time" in let l := fresh "hybrid_latencies" in
   main_benchmark t l);
  main_print; main_avg_latency_trace; main_throughput; do 2 main_print;
  (let t := fresh "c_time" in let l := fresh "c_latencies" in
   main_benchmark t l);
  main_print; main_avg_latency_trace; main_throughput; do 6 main_print;
  main_throughput; main_print;
  main_throughput; main_div; main_print;
  main_throughput; main_div; main_print;
  main_throughput; main_div; do 2 main_print.

(** X14. A finished comparison has run every strategy once over the same
    corpus: since [main] started, every corpus file was read exactly four
    times and every non-empty payload was hashed exactly four times, once
    by each strategy. *)
Theorem main_runs_every_strategy_once (env : Env) (scheds : Schedules)
    (argv : list string) (w w' : World) :
  main env scheds argv w = (inr tt, w') ->
  let files := get_files env (nth 1 argv "") 1000 in
  ∃ evs,
    trace w' = trace w ++ evs
    ∧ filter (fun e => is_read e = true) evs
        ≡ₚ corpus_reads files ++ corpus_reads files
             ++ corpus_reads files ++ corpus_reads files
    ∧ mjoin (payloads_hashed <$> evs)
        ≡ₚ corpus_payloads env files ++ corpus_payloads env files
             ++ corpus_payloads env files ++ corpus_payloads env files.
Proof.
  main_benchmarks_trace env.
  intros Hdone.
  assert (Hw' : trace w' = trace w8).
  { repeat match type of Hdone with
           | (if ?c then _ else _) _ = _ => destruct c
           end; by injection Hdone as <-. }
  clear Hdone. destruct Hprelude as [Hprelude _]. cbn [trace put_line] in Hprelude.
  assert (HAS_RUST env = true ∧ HAS_XXHASH env = true) as [Hrust Hc].
  { by destruct (HAS_RUST env), (HAS_XXHASH env). }
  assert (cpu_count env ≠ 0) as Hn.
  { intros E. rewrite E in Hrun. unfold benchmark_python_threading_rust in Hrun.
    rewrite Hrust in Hrun. discriminate Hrun. }
  destruct (batch_xxh64 env) as [batch|] eqn:Hbatch.
  2: { unfold benchmark_rust_parallel_batch in Hrun0. rewrite Hrust, Hbatch in Hrun0.
       injection Hrun0 as <- _ _. discriminate Htime0. }
  lazymatch type of Hrun with
  | _ ?wa = _ =>
      pose proof (python_threading_rust_summary env (sched_python scheds)
                    (f :: files) (cpu_count env) wa Hrust Hn)
        as (evsA & HtrA & HreadsA & HhashA)
  end.
  rewrite Hrun in HtrA.
  lazymatch type of Hrun0 with
  | _ ?wa = _ =>
      pose proof (rust_parallel_batch_summary env (f :: files) wa batch Hrust Hbatch)
        as (evsB & HtrB & HreadsB & HhashB)
  end.
  rewrite Hrun0 in HtrB.
  lazymatch type of Hrun1 with
  | _ ?wa = _ =>
      pose proof (hybrid_summary env (sched_hybrid scheds) (f :: files)
                    (cpu_count env) wa batch Hrust Hbatch Hn)
        as (evsC & HtrC & HreadsC & HhashC)
  end.
  rewrite Hrun1 in HtrC.
  lazymatch type of Hrun2 with
  | _ ?wa = _ =>
      pose proof (c_threading_summary env (sched_c scheds) (f :: files)
                    (cpu_count env) wa Hc Hn)
        as (evsD & HtrD & HreadsD & HhashD)
  end.
  rewrite Hrun2 in HtrD.
  cbn [trace put_line snd] in HtrA, HtrB, HtrC, HtrD.
  exists (evsA ++ evsB ++ evsC ++ evsD). split_and!.
  - rewrite Hw', Havgtr2, HtrD, Havgtr1, HtrC, Havgtr0, HtrB, Havgtr, HtrA, Hprelude.
    by rewrite <- !app_assoc.
  - rewrite !filter_app. by rewrite HreadsA, HreadsB, HreadsC, HreadsD.
  - rewrite !fmap_app, !join_app. by rewrite HhashA, HhashB, HhashC, HhashD.
Qed.

Lemma main_runs_every_strategy_once_witness :
  ∃ w' evs,
    main env_demo demo_schedules ["benchmark"; "d"] world0 = (inr tt, w')
    ∧ trace w' = evs
    ∧ length (filter (fun e => is_read e = true) evs) = 12.
Proof.
  exists (main env_demo demo_schedules ["benchmark"; "d"] world0).2.
  assert (Hrun : main env_demo demo_schedules ["benchmark"; "d"] world0
                 = (inr tt, (main env_demo demo_schedules ["benchmark"; "d"] world0).2)).
  { vm_compute. reflexivity. }
  destruct (main_runs_every_strategy_once env_demo demo_schedules
              ["benchmark"; "d"] world0 _ Hrun) as (evs & Htr & Hreads & _).
  exists evs. split_and!; [exact Hrun | exact Htr |].
  rewrite Hreads. reflexivity.
Defined.

(** ** Times under a monotone clock *)

Section Since.
Variable env : Env.
Context {R : Type}.
Variable P : R -> Prop.

Lemma exec_ticks {A} (a : Action A) (w : World) :
  ticks w <= ticks (exec env a w).2.
Proof. destruct a; simpl; lia. Qed.

Lemma job_since_later (job : nat * Task R) (w w' : World) :
  ticks w <= ticks w' -> job_since env P w job -> job_since env P w' job.
Proof. intros Hle (k0 & Hk & Ht). exists k0. split; [lia|done]. Qed.

Lemma run_task_since (t : Task R) (k0 : nat) (w : World) :
  task_since env P t k0 -> k0 <= ticks w ->
  P (run_task env t w).1 ∧ ticks w <= ticks (run_task env t w).2.
Proof.
  revert k0 w. induction t as [r|A a k IH]; intros k0 w Ht Hk; simpl in *; [done|].
  specialize (Ht w Hk). pose proof (exec_ticks a w) as Hle.
  destruct (exec env a w) as [x w1]. simpl in *.
  destruct (IH x _ w1 Ht (le_n _)) as [HP Hle']. split; [done|lia].
Qed.

Lemma pool_step_since (p : Pool R) (w : World) (i : nat) :
  Forall (job_since env P w) (pending p) ->
  Forall (resolved_with P) (futures p) ->
  let st := pool_step env (p, w) i in
  Forall (job_since env P st.2) (pending st.1)
  ∧ Forall (resolved_with P) (futures st.1)
  ∧ ticks w <= ticks st.2.
Proof.
  intros Hjobs Hdone. unfold pool_step.
  destruct (workers p !! i) as [[[j [r|A a k]]|]|] eqn:Hi; simpl; [| | |done].
  - unfold pending, running in *. simpl.
    rewrite (running_lookup_perm _ _ _ Hi) in Hjobs.
    apply Forall_cons in Hjobs as [(k0 & _ & Hr) Hjobs].
    split_and!; [done| |done]. by apply Forall_insert.
  - unfold pending, running in *.
    rewrite (running_lookup_perm _ _ _ Hi) in Hjobs.
    apply Forall_cons in Hjobs as [(k0 & Hk & Hdo) Hjobs].
    simpl in Hdo. specialize (Hdo w Hk). pose proof (exec_ticks a w) as Hle.
    destruct (exec env a w) as [x w1]. simpl in *.
    split_and!; [|done..].
    rewrite (running_insert _ i (Some (j, k x))) by (by eapply lookup_lt_Some).
    simpl. constructor.
    + by exists (ticks w1).
    + eapply Forall_impl; [exact Hjobs|]. intros job. by apply job_since_later.
  - destruct (queue p) as [|job rest] eqn:Hq; simpl; [done|].
    split_and!; [|done..].
    unfold pending, running in *. simpl. rewrite Hq in Hjobs.
    rewrite (running_insert _ i (Some job)) by (by eapply lookup_lt_Some).
    rewrite (list_insert_id _ _ _ Hi). simpl.
    by rewrite Permutation_middle.
Qed.

Lemma pool_run_since (sched : list nat) (p : Pool R) (w : World) :
  Forall (job_since env P w) (pending p) ->
  Forall (resolved_with P) (futures p) ->
  let st := foldl (pool_step env) (p, w) sched in
  Forall (job_since env P st.2) (pending st.1)
  ∧ Forall (resolved_with P) (futures st.1)
  ∧ ticks w <= ticks st.2.
Proof.
  revert p w. induction sched as [|i sched IH]; intros p w Hjobs Hdone; [done|].
  cbn [foldl]. destruct (pool_step_since p w i Hjobs Hdone) as (Hj & Hd & Hle).
  destruct (pool_step env (p, w) i) as [p' w']. simpl in *.
  destruct (IH p' w' Hj Hd) as (Hj' & Hd' & Hle'). split_and!; [done..|lia].
Qed.

Lemma pool_join_since (jobs : list (nat * Task R)) (fs : list (option R))
    (w : World) :
  Forall (job_since env P w) jobs -> Forall (resolved_with P) fs ->
  let st := foldl (finish env) (fs, w) jobs in
  Forall (resolved_with P) st.1 ∧ ticks w <= ticks st.2.
Proof.
  revert fs w. induction jobs as [|[j t] jobs IH]; intros fs w Hjobs Hdone; [done|].
  cbn [foldl finish]. simpl.
  apply Forall_cons in Hjobs as [(k0 & Hk & Ht) Hjobs]. simpl in Ht.
  destruct (run_task_since t k0 w Ht Hk) as [HP Hle].
  destruct (run_task env t w) as [r w1]. simpl in *.
  destruct (IH (<[j := Some r]> fs) w1) as [Hd Hle'].
  - eapply Forall_impl; [exact Hjobs|]. intros job. by apply job_since_later.
  - by apply Forall_insert.
  - split; [done|lia].
Qed.

Lemma omap_resolved (fs : list (option R)) :
  Forall (resolved_with P) fs -> Forall P (omap id fs).
Proof.
  induction 1 as [|[r|] fs Hr _ IH]; simpl; [done| |done]. by constructor.
Qed.

Lemma executor_map_since (sched : list nat) (max_workers : nat)
    (tasks : list (Task R)) (w : World) :
  max_workers ≠ 0 ->
  Forall (fun t => task_since env P t (ticks w)) tasks ->
  ∃ rs w', executor_map env sched max_workers tasks w = (inr rs, w')
           ∧ Forall P rs ∧ ticks w <= ticks w'.
Proof.
  intros Hn Htasks. unfold executor_map.
  destruct (Nat.eqb_spec max_workers 0) as [?|_]; [done|].
  assert (Hidle : omap id (replicate max_workers (@None (nat * Task R))) = []).
  { clear Hn. induction max_workers; [done|]. simpl. done. }
  destruct (pool_run_since sched (submit_all tasks max_workers) w)
    as (Hj & Hd & Hle).
  { unfold pending, running. simpl. rewrite Hidle. simpl.
    apply Forall_forall. intros [j t] Hin.
    apply elem_of_lookup_imap in Hin as (j' & t' & [= -> ->] & Hl).
    exists (ticks w). split; [done|].
    eapply (proj1 (Forall_lookup _ _) Htasks). exact Hl. }
  { simpl. by apply Forall_replicate. }
  destruct (foldl (pool_step env) (submit_all tasks max_workers, w) sched) as [p w1].
  simpl in *. unfold pool_join.
  destruct (pool_join_since _ _ _ Hj Hd) as [Hd' Hle'].
  unfold pending in Hd', Hle'.
  destruct (foldl (finish env) (futures p, w1) (running p ++ queue p)) as [fs w2].
  simpl in *. eexists _, _. split; [reflexivity|].
  split; [by apply omap_resolved | lia].
Qed.

End Since.

Lemma span_nonneg (a b : Q) : (a <= b)%Q -> (0 <= b - a)%Q.
Proof. intros H. unfold Qminus. by apply (proj1 (Qle_minus_iff a b)). Qed.

Lemma microseconds_nonneg (a b : Q) : (a <= b)%Q -> (0 <= (b - a) * 1e6)%Q.
Proof.
  intros H. apply Qmult_le_0_compat; [by apply span_nonneg|]. discriminate.
Qed.

Lemma uniform_nonneg (process_time : Q) (results : list Z) :
  (0 <= process_time)%Q -> Forall (fun x => (0 <= x)%Q) (uniform process_time results).
Proof.
  intros Hpt. unfold uniform. destruct results as [|z rs]; [constructor|].
  cbn [truthy]. apply Forall_replicate.
  unfold Qdiv. apply Qmult_le_0_compat.
  - apply Qmult_le_0_compat; [done|discriminate].
  - apply Qinv_le_0_compat. unfold Qle. simpl. lia.
Qed.

Section MonotoneClock.
Variable env : Env.

Lemma rust_worker_since (p : Path) (k0 : nat) :
  monotone_clock env ->
  task_since env (fun r => (0 <= r)%Q) (rust_worker p) k0.
Proof.
  intros Hclock. simpl. intros w _.
  destruct (file_content env p) as [[|b data]|]; simpl; [apply Qle_refl| |apply Qle_refl].
  intros w1 _ w2 Hw2 w3 Hw3. apply microseconds_nonneg, Hclock. lia.
Qed.

Lemma c_worker_since (p : Path) (k0 : nat) :
  monotone_clock env ->
  task_since env (fun r => (0 <= r)%Q) (c_worker p) k0.
Proof.
  intros Hclock. simpl. intros w _.
  destruct (file_content env p) as [[|b data]|]; simpl; [apply Qle_refl| |apply Qle_refl].
  intros w1 _ w2 Hw2 w3 Hw3. apply microseconds_nonneg, Hclock. lia.
Qed.

Lemma per_item_nonneg (worker : Path -> Task Q) (sched : list nat)
    (files : list (Path * Z)) (n : nat) (w : World) :
  monotone_clock env ->
  (∀ p k0, task_since env (fun r => (0 <= r)%Q) (worker p) k0) ->
  nonnegative_result
    ((do start <- perf_counter env;
      do latencies <- executor_map env sched n ((fun '(f, _) => worker f) <$> files);
      do stop <- perf_counter env;
      let total_time := (stop - start)%Q in
      ret (total_time, latencies))%main w).
Proof.
  intros Hclock Hworker. unfold nonnegative_result.
  rewrite (bind_run _ _ _ _ _ (perf_counter_run env w)).
  destruct (decide (n = 0)) as [->|Hn]; [done|].
  destruct (executor_map_since env (fun r => (0 <= r)%Q) sched n
              ((fun '(f, _) => worker f) <$> files) (tick w) Hn)
    as (lat & w1 & Hrun & Hlat & Hle).
  { apply Forall_fmap, Forall_true. intros [p sz]. apply Hworker. }
  rewrite (bind_run _ _ _ _ _ Hrun).
  rewrite (bind_run _ _ _ _ _ (perf_counter_run env w1)). simpl.
  split; [|done]. apply span_nonneg, Hclock. simpl in Hle. lia.
Qed.

End MonotoneClock.

(** X15. With a clock that never goes back, no strategy reports a negative
    figure: whatever the schedule, the time a strategy returns and every
    latency in the list it returns are greater than or equal to zero. *)
Theorem monotone_clock_gives_nonnegative_times (env : Env) (sched : list nat)
    (files : list (Path * Z)) (num_threads : nat) (w : World) :
  monotone_clock env ->
  nonnegative_result (benchmark_python_threading_rust env sched files num_threads w)
  ∧ nonnegative_result (benchmark_rust_parallel_batch env files w)
  ∧ nonnegative_result
      (benchmark_rust_parallel_batch_with_reading env sched files num_threads w)
  ∧ nonnegative_result (benchmark_c_threading env sched files num_threads w).
Proof.
  intros Hclock.
  assert (Hzero : ∀ w0, nonnegative_result (@inr Exn _ (0%Q, @nil Q), w0)).
  { intros w0. split; [apply Qle_refl|constructor]. }
  split_and!.
  - unfold benchmark_python_threading_rust.
    destruct (HAS_RUST env); simpl; [|apply Hzero].
    apply (per_item_nonneg env rust_worker); [done|].
    intros p k0. by apply rust_worker_since.
  - destruct (HAS_RUST env) eqn:Hrust, (batch_xxh64 env) as [batch|] eqn:Hbatch;
      try (unfold benchmark_rust_parallel_batch; rewrite Hrust, ?Hbatch; apply Hzero).
    rewrite (rust_parallel_batch_run env files w batch Hrust Hbatch).
    assert (0 <= clock env (3 + ticks w) - clock env (2 + ticks w))%Q as Hpt
      by (apply span_nonneg, Hclock; lia).
    split; [done|]. by apply uniform_nonneg.
  - destruct (HAS_RUST env) eqn:Hrust, (batch_xxh64 env) as [batch|] eqn:Hbatch;
      try (unfold benchmark_rust_parallel_batch_with_reading;
           rewrite Hrust, ?Hbatch; apply Hzero).
    destruct (decide (num_threads = 0)) as [->|Hn].
    + unfold benchmark_rust_parallel_batch_with_reading, nonnegative_result.
      by rewrite Hrust, Hbatch.
    + destruct (hybrid_run env sched files num_threads w batch Hrust Hbatch Hn)
        as (reads & Hrun & _).
      rewrite Hrun.
      assert (0 <= clock env (3 + ticks w) - clock env (2 + ticks w))%Q as Hpt
        by (apply span_nonneg, Hclock; lia).
      split; [done|]. by apply uniform_nonneg.
  - unfold benchmark_c_threading.
    destruct (HAS_XXHASH env); simpl; [|apply Hzero].
    apply (per_item_nonneg env c_worker); [done|].
    intros p k0. by apply c_worker_since.
Qed.

Lemma monotone_clock_gives_nonnegative_times_witness :
  nonnegative_result
    (benchmark_python_threading_rust env_demo [0; 1; 0; 1; 1; 1] demo_files 2 world0).
Proof.
  assert (Hclock : monotone_clock env_demo).
  { intros a b Hab. unfold Qle. simpl. lia. }
  exact (proj1 (monotone_clock_gives_nonnegative_times env_demo [0; 1; 0; 1; 1; 1]
                  demo_files 2 world0 Hclock)).
Defined.
